(** * emoatlas: the [EmoScores] orchestration class (emoatlas/emolib.py)

    A shallow embedding of the class [EmoScores] and of the properties its
    specification states about it:

    - [Formamentis]: the network value [FormamentisNetwork(edges, vertices)]
      in its two shapes and [extract_word_from_formamentis];
    - [EdgeListIO]: [export_formamentis] and [import_formamentis] over a file
      system that maps paths to file contents;
    - [Scorer]: the instance state, [__init__], [set_stemming_lemmatization],
      [set_baseline], [emotions] and [zscores].

    Python values are modelled as follows.  A [str] is a [string] (its
    characters are the code points below 256), a tuple of two words is a
    pair, a [list] is a [list], a [set] of words is a [gset string], a
    [dict] keyed by words is a [gmap string _].  [list(s)] of a set [s] is
    [elements s]: Python leaves the order unspecified, and no statement
    below depends on it.  An exception is a value [Raise e].  The functions
    of the other modules of the package ([emoatlas.resources],
    [emoatlas.baselines], [emoatlas.emo_scores]) are parameters; the two
    that check an argument of the caller, the loader of the lexicon and the
    builder of a baseline, may raise, and a method stops where they do. *)

From stdpp Require Import gmap strings list fin_maps sorting.
From Stdlib Require Import Ascii String.

Local Open Scope string_scope.

(** ** Outcomes of a call *)

Inductive exn : Type :=
  | AttributeError (attr : string)
  | ValueError (msg : string)
  | IndexError
  | TypeError (msg : string)
  | FileNotFoundError (path : string).

Inductive result (A : Type) : Type :=
  | Ok (a : A)
  | Raise (e : exn).
Arguments Ok {A} a.
Arguments Raise {A} e.

(** Exceptions propagate through sequenced calls. *)
Global Instance result_bind : MBind result := λ A B k r,
  match r with
  | Ok a => k a
  | Raise e => Raise e
  end.

(** ** Formamentis networks *)

Module Formamentis.

(** An edge is a tuple of two words. *)
Definition edge : Type := string * string.

(** [fmn.edges] is either a list of edges (flat) or a dict from edge kind to
    a list of edges (multiplex): [type(fmn.edges) != dict] tells them
    apart. *)
Inductive edge_collection : Type :=
  | Flat (es : list edge)
  | Multiplex (m : gmap string (list edge)).

(** [namedtuple("FormamentisNetwork", "edges vertices")] *)
Record FormamentisNetwork : Type := mkFormamentisNetwork {
  edges : edge_collection;
  vertices : list string
}.

(** [target_word in edge] *)
Definition incident (target_word : string) (e : edge) : Prop :=
  target_word = e.1 ∨ target_word = e.2.

Global Instance incident_dec t e : Decision (incident t e).
Proof. unfold incident. apply _. Defined.

(** [(edge[0] in final_vertex) and (edge[1] in final_vertex)] *)
Definition both_in (final_vertex : gset string) (e : edge) : Prop :=
  e.1 ∈ final_vertex ∧ e.2 ∈ final_vertex.

Global Instance both_in_dec V e : Decision (both_in V e).
Proof. unfold both_in. apply _. Defined.

(** [itertools.chain] over the unpacked [new_edgelist]: the words of every
    edge, in order. *)
Definition chain (new_edgelist : list edge) : list string :=
  new_edgelist ≫= (λ e, [e.1; e.2]).

(** The vertex set of the flat branch: the [set] of the chained
    [new_edgelist = [edge for edge in fmn.edges if target_word in edge]]. *)
Definition flat_final_vertex (target_word : string) (es : list edge)
  : gset string :=
  list_to_set (chain (filter (incident target_word) es)).

(** [list(fmn.edges.keys())].  A dict lists its keys in insertion order,
    which a [gmap] does not keep; the two loops below give the same set and
    the same dict for every order. *)
Definition edge_types (m : gmap string (list edge)) : list string :=
  (map_to_list m).*1.

(** The first loop of the multiplex branch: [final_vertex] starts empty and
    is united, kind after kind, with the endpoints of that kind's edges on
    the target.  [fmn.edges[edge_type]] is a lookup of a key of the dict
    itself, so the total lookup never takes its default. *)
Definition multiplex_final_vertex (target_word : string)
    (m : gmap string (list edge)) : gset string :=
  foldl (λ final_vertex edge_type,
           final_vertex ∪
           list_to_set (chain (filter (incident target_word) (m !!! edge_type))))
        ∅ (edge_types m).

(** The second loop: [final_edgelist[edge_type] = new_edgelist] for every
    kind, starting from the empty dict. *)
Definition multiplex_final_edgelist (final_vertex : gset string)
    (m : gmap string (list edge)) : gmap string (list edge) :=
  foldl (λ final_edgelist edge_type,
           <[edge_type := filter (both_in final_vertex) (m !!! edge_type)]>
             final_edgelist)
        ∅ (edge_types m).

Definition extract_word_from_formamentis (fmn : FormamentisNetwork)
    (target_word : string) : FormamentisNetwork :=
  match edges fmn with
  | Flat es =>
      let final_vertex := flat_final_vertex target_word es in
      let final_edgelist := filter (both_in final_vertex) es in
      mkFormamentisNetwork (Flat final_edgelist) (elements final_vertex)
  | Multiplex m =>
      let final_vertex := multiplex_final_vertex target_word m in
      let final_edgelist := multiplex_final_edgelist final_vertex m in
      mkFormamentisNetwork (Multiplex final_edgelist) (elements final_vertex)
  end.

(** *** The restriction as the specification words it

    Edges on the target first, then the union of their endpoints, then the
    original edges with both endpoints in that union; for a multiplex
    network the union ranges over all kinds and the filter is applied kind
    by kind. *)

Definition endpoint_union (es : list edge) : gset string :=
  ⋃ ((λ e : edge, {[e.1; e.2]}) <$> es).

Definition closure_vertices (target_word : string) (ec : edge_collection)
  : gset string :=
  match ec with
  | Flat es => endpoint_union (filter (incident target_word) es)
  | Multiplex m =>
      ⋃ ((λ kes : string * list edge,
            endpoint_union (filter (incident target_word) kes.2))
         <$> map_to_list m)
  end.

Definition closure_edges (V : gset string) (ec : edge_collection)
  : edge_collection :=
  match ec with
  | Flat es => Flat (filter (both_in V) es)
  | Multiplex m => Multiplex (filter (both_in V) <$> m)
  end.

(** [v] is an endpoint of an edge of [es] that is on the target. *)
Definition neighbour_in (target_word : string) (es : list edge) (v : string)
  : Prop :=
  ∃ e, e ∈ es ∧ incident target_word e ∧ (v = e.1 ∨ v = e.2).

(** The same over a whole edge collection. *)
Definition neighbour (target_word : string) (ec : edge_collection)
    (v : string) : Prop :=
  match ec with
  | Flat es => neighbour_in target_word es v
  | Multiplex m => ∃ k es, m !! k = Some es ∧ neighbour_in target_word es v
  end.

(** The target word occurs in no edge of the collection. *)
Definition absent (target_word : string) (ec : edge_collection) : Prop :=
  match ec with
  | Flat es => Forall (λ e, ¬ incident target_word e) es
  | Multiplex m =>
      map_Forall (λ _ es, Forall (λ e, ¬ incident target_word e) es) m
  end.

Global Instance absent_dec t ec : Decision (absent t ec).
Proof. destruct ec; simpl; apply _. Defined.

End Formamentis.

(** ** Edge-list files *)

Module EdgeListIO.
Import Formamentis.

(** *** Characters and the string methods the code calls *)

Definition LF : ascii := "010"%char.
Definition CR : ascii := "013"%char.
Definition comma : ascii := ","%char.

(** [c.isspace()] for a code point below 256: tab to carriage return, the
    four separators 28 to 31, the space, NEL and the no-break space. *)
Definition isspace (c : ascii) : bool :=
  let n := nat_of_ascii c in
  (((9 <=? n) && (n <=? 13)) || ((28 <=? n) && (n <=? 32))
   || (n =? 133) || (n =? 160))%nat.

(** [s.lstrip()] *)
Fixpoint lstrip (s : string) : string :=
  match s with
  | EmptyString => EmptyString
  | String c rest => if isspace c then lstrip rest else s
  end.

(** [s.rstrip()] *)
Fixpoint rstrip (s : string) : string :=
  match s with
  | EmptyString => EmptyString
  | String c rest =>
      match rstrip rest with
      | EmptyString => if isspace c then EmptyString else String c EmptyString
      | kept => String c kept
      end
  end.

(** [s.strip()] *)
Definition strip (s : string) : string := rstrip (lstrip s).

(** [s.split(sep)] for a separator of one character: one part more than
    there are separators, empty parts included. *)
Fixpoint split (sep : ascii) (s : string) : list string :=
  match s with
  | EmptyString => [EmptyString]
  | String c rest =>
      if Ascii.eqb c sep then EmptyString :: split sep rest
      else match split sep rest with
           | [] => [String c EmptyString]
           | part :: parts => String c part :: parts
           end
  end.

(** [s.endswith(suffix)] *)
Fixpoint endswith (s suffix : string) : bool :=
  String.eqb s suffix ||
  match s with
  | EmptyString => false
  | String _ rest => endswith rest suffix
  end.

(** [c in s] for a character [c] *)
Fixpoint contains (c : ascii) (s : string) : bool :=
  match s with
  | EmptyString => false
  | String c' rest => Ascii.eqb c' c || contains c rest
  end.

(** [sorted(vertices)] of a set of words: [str] values compare
    lexicographically on code points, which is [String.le]. *)
Definition sorted (vertices : gset string) : list string :=
  merge_sort String.le (elements vertices).

(** *** The file system

    A text file is the [str] that was written to it.  The platform is
    POSIX: writing leaves a line feed as it is, [os.path.join] joins with a
    slash, and reading in text mode applies universal newlines. *)

Record World : Type := mkWorld {
  cwd : string;
  files : gmap string string
}.

(** [os.path.join(path, filename)] *)
Definition os_path_join (path filename : string) : string :=
  match filename with
  | String "/" _ => filename
  | _ => if String.eqb path EmptyString || endswith path "/"
         then path ++ filename
         else path ++ "/" ++ filename
  end.

(** [for line in file]: a line ends at a line feed, a carriage return or the
    two in a row, each read as one line feed; the last line may lack
    one. *)
Fixpoint readlines (content : string) : list string :=
  match content with
  | EmptyString => []
  | String c rest =>
      if Ascii.eqb c LF then String LF EmptyString :: readlines rest
      else if Ascii.eqb c CR then
        String LF EmptyString ::
        match rest with
        | String c' rest' =>
            if Ascii.eqb c' LF then readlines rest' else readlines rest
        | EmptyString => []
        end
      else match readlines rest with
           | [] => [String c EmptyString]
           | line :: lines => String c line :: lines
           end
  end.

(** *** export_formamentis *)

(** The name under which the file is written. *)
Definition export_filepath (w : World) (filename path : option string)
  : string :=
  let filename :=
    match filename with
    | None => "extracted formamentis.txt"
    | Some filename =>
        if endswith filename ".txt" then filename else filename ++ ".txt"
    end in
  let path := match path with None => cwd w | Some path => path end in
  os_path_join path filename.

(** The f-string written for one pair. *)
Definition format_pair (pair0 pair1 : string) : string :=
  pair0 ++ " , " ++ pair1 ++ String LF EmptyString.

(** What [pair[0]] and [pair[1]] are for the items of [fmnt.edges]: the two
    words of an edge of a flat network; for a multiplex network the loop
    runs over the keys of the dict, and indexing a key gives its
    characters, or fails on a key shorter than two. *)
Definition flat_line (item : edge) : result string :=
  Ok (format_pair item.1 item.2).

Definition key_line (item : string) : result string :=
  match item with
  | String c0 (String c1 _) =>
      Ok (format_pair (String c0 EmptyString) (String c1 EmptyString))
  | _ => Raise IndexError
  end.

(** The loop [for pair in edges: file.write(...)]: what has been written
    stays in the file when an item raises. *)
Fixpoint write_pairs {A : Type} (line_of : A → result string)
    (pairs : list A) (content : string) : string * result () :=
  match pairs with
  | [] => (content, Ok ())
  | item :: rest =>
      match line_of item with
      | Ok line => write_pairs line_of rest (content ++ line)
      | Raise e => (content, Raise e)
      end
  end.

(** [export_formamentis(fmnt, filename, path)].  The loop over the dict of
    a multiplex network runs over its keys in insertion order.  A [gmap]
    keeps no such order, so the keys come with the network as [kinds], in
    that order; for a flat network there are none and [kinds] is not
    read. *)
Definition export_formamentis (w : World) (fmnt : FormamentisNetwork)
    (kinds : list string) (filename path : option string)
  : World * result () :=
  let filepath := export_filepath w filename path in
  let '(content, outcome) :=
    match edges fmnt with
    | Flat es => write_pairs flat_line es EmptyString
    | Multiplex _ => write_pairs key_line kinds EmptyString
    end in
  (mkWorld (cwd w) (<[filepath := content]> (files w)), outcome).

(** *** import_formamentis *)

(** [vertex1, vertex2 = map(str.strip, line.split(","))]: unpacking needs
    exactly two parts. *)
Definition unpack_line (line : string) : result edge :=
  match strip <$> split comma line with
  | [vertex1; vertex2] => Ok (vertex1, vertex2)
  | [] => Raise (ValueError "not enough values to unpack (expected 2, got 0)")
  | [_] => Raise (ValueError "not enough values to unpack (expected 2, got 1)")
  | _ => Raise (ValueError "too many values to unpack (expected 2)")
  end.

(** The loop over the lines, with the list [edges] and the set [vertices]
    it fills. *)
Fixpoint import_lines (lines : list string) (edges : list edge)
    (vertices : gset string) : result (list edge * gset string) :=
  match lines with
  | [] => Ok (edges, vertices)
  | line :: rest =>
      match unpack_line line with
      | Ok (vertex1, vertex2) =>
          import_lines rest (edges ++ [(vertex1, vertex2)])
                       (vertices ∪ list_to_set [vertex1; vertex2])
      | Raise e => Raise e
      end
  end.

Definition import_formamentis (w : World) (filepath : option string)
  : result FormamentisNetwork :=
  match filepath with
  | None => Raise (TypeError "expected str, bytes or os.PathLike object")
  | Some filepath =>
      match files w !! filepath with
      | None => Raise (FileNotFoundError filepath)
      | Some content =>
          match import_lines (readlines content) [] ∅ with
          | Ok (edges, vertices) =>
              Ok (mkFormamentisNetwork (Flat edges) (sorted vertices))
          | Raise e => Raise e
          end
      end
  end.

(** *** Words and files the statements are about *)

(** The first character is whitespace; the last character is. *)
Definition starts_with_space (word : string) : bool :=
  match word with
  | EmptyString => false
  | String c _ => isspace c
  end.

Fixpoint ends_with_space (word : string) : bool :=
  match word with
  | EmptyString => false
  | String c rest =>
      match rest with
      | EmptyString => isspace c
      | String _ _ => ends_with_space rest
      end
  end.

(** No leading and no trailing whitespace. *)
Definition trimmed (word : string) : Prop :=
  starts_with_space word = false ∧ ends_with_space word = false.

(** Whitespace only. *)
Fixpoint blank (s : string) : bool :=
  match s with
  | EmptyString => true
  | String c rest => isspace c && blank rest
  end.

(** A word as the round trip takes it: no comma, no whitespace at either
    end. *)
Definition plain_word (word : string) : Prop :=
  contains comma word = false ∧ trimmed word.

(** A word that in addition holds no line break. *)
Definition one_line_word (word : string) : Prop :=
  plain_word word ∧ contains LF word = false ∧ contains CR word = false.

(** The number of commas of a line. *)
Fixpoint count_commas (line : string) : nat :=
  match line with
  | EmptyString => 0
  | String c rest => (if Ascii.eqb c comma then 1 else 0) + count_commas rest
  end.

(** A well-formed edge-list file: every line has one comma. *)
Definition well_formed (content : string) : Prop :=
  Forall (λ line, count_commas line = 1) (readlines content).

(** The two endpoints a line names: what stands before its first comma and
    what stands after it, without the surrounding whitespace. *)
Fixpoint before_comma (line : string) : string :=
  match line with
  | EmptyString => EmptyString
  | String c rest =>
      if Ascii.eqb c comma then EmptyString else String c (before_comma rest)
  end.

Fixpoint after_comma (line : string) : string :=
  match line with
  | EmptyString => EmptyString
  | String c rest => if Ascii.eqb c comma then rest else after_comma rest
  end.

Definition line_edge (line : string) : edge :=
  (strip (before_comma line), strip (after_comma line)).

(** A line names an edge: it is the first word, a comma and the second
    word, each word trimmed and surrounded by whitespace only. *)
Definition names (line : string) (e : edge) : Prop :=
  ∃ l1 r1 l2 r2 : string,
    line = (l1 ++ e.1 ++ r1) ++ String comma (l2 ++ e.2 ++ r2) ∧
    contains comma (l1 ++ e.1 ++ r1) = false ∧
    blank l1 = true ∧ blank r1 = true ∧ blank l2 = true ∧ blank r2 = true ∧
    trimmed e.1 ∧ trimmed e.2.

(** The text of the file written for a list of edges. *)
Fixpoint file_text (es : list edge) : string :=
  match es with
  | [] => EmptyString
  | e :: rest => format_pair e.1 e.2 ++ file_text rest
  end.

End EdgeListIO.

(** ** The scorer *)

Module Scorer.
Import Formamentis.

(** [obj]: a text or a Formamentis Network. *)
Inductive obj : Type :=
  | Text (text : string)
  | Network (fmn : FormamentisNetwork).

(** The [baseline] argument of [set_baseline] and [zscores]: [None], a text,
    or a list of lists. *)
Inductive baseline_arg (Row : Type) : Type :=
  | BNone
  | BText (text : string)
  | BDist (rows : list Row).
Arguments BNone {Row}.
Arguments BText {Row} text.
Arguments BDist {Row} rows.

(** [not baseline] is true of [None], of the empty text and of the empty
    list. *)
Definition truthy {Row : Type} (baseline : baseline_arg Row) : bool :=
  match baseline with
  | BNone => false
  | BText text => negb (String.eqb text EmptyString)
  | BDist rows => match rows with [] => false | _ => true end
  end.

(** What is passed as [tagger]: the tagger under lemmatization and
    otherwise [self._stemmer], which is [None] until a stemmer is loaded. *)
Inductive model (Tagger Stemmer : Type) : Type :=
  | UseTagger (tagger : Tagger)
  | UseStemmer (stemmer : option Stemmer).
Arguments UseTagger {Tagger Stemmer} tagger.
Arguments UseStemmer {Tagger Stemmer} stemmer.

(** The other modules of the package, as the class calls them.  A keyword
    argument a call leaves out is [None].  [_load_dictionary] checks the
    mode and [_make_baseline] the baseline it is given: they return a
    [result]. *)
Class Collaborators : Type := {
  Lexicon : Type;
  Tagger : Type;
  Stemmer : Type;
  SpacyModel : Type;
  Emojis : Type;
  Idioms : Type;
  Antonyms : Type;
  (** a row of a distribution given as a list of lists *)
  Row : Type;
  (** the value [_make_baseline] returns *)
  Baseline : Type;
  (** a mean vector and a standard-deviation vector *)
  Stats : Type;
  (** the dict [_get_emotions] returns *)
  Scores : Type;
  (** the dict of z-scores *)
  ZScores : Type;
  (** the state of the random generator *)
  Rng : Type;
  (** emoatlas.resources *)
  _load_dictionary : string → option string → result Lexicon;
  _load_spacy : option string → option SpacyModel → Tagger;
  _load_emojis : string → Emojis;
  _load_antonyms : string → Antonyms;
  _load_idiomatic_tokens : string → option string → Idioms;
  _load_stemmer : string → Stemmer;
  (** emoatlas.baselines *)
  _load_lookup_table : string → gmap nat Stats;
  _make_baseline :
    baseline_arg Row → option Lexicon → option string →
    option (model Tagger Stemmer) → option Emojis → option Idioms →
    result Baseline;
  (** [not self._baseline] *)
  baseline_truthy : Baseline → bool;
  (** emoatlas.emo_scores *)
  _get_emotions :
    obj → string → Lexicon → string → model Tagger Stemmer → list string →
    bool → Emojis → bool → Idioms → Scores;
  (** the pieces of the significance engine *)
  token_count :
    string → string → model Tagger Stemmer → Emojis → bool → Idioms → nat;
  null_statistics :
    Rng → Baseline → nat → nat → Lexicon → list string → Stats * Rng;
  z_vector : list string → Scores → Stats → ZScores
}.

(** [x is None] *)
Definition is_None {A : Type} (x : option A) : bool :=
  match x with
  | None => true
  | Some _ => false
  end.

Section EmoScores.
Context `{C : Collaborators}.

(** The attributes of an instance.  [emotionslist] and [_emotion_model] are
    set by one branch of [__init__] only: [None] here is an attribute that
    does not exist. *)
Record EmoScores : Type := mkEmoScores {
  language : string;
  _emotion_lexicon : Lexicon;
  _tagger : Tagger;
  _stemmer : option Stemmer;
  _stem_or_lem : string;
  _emojis_dict : Emojis;
  _idiomatic_tokens : Idioms;
  _antonyms : Antonyms;
  _baseline : Baseline;
  _lookup : gmap nat Stats;
  emotionslist : option (list string);
  _emotion_model : option string
}.

Definition plutchik : list string :=
  ["anger"; "trust"; "surprise"; "disgust"; "joy"; "sadness"; "fear";
   "anticipation"].

(** [self._baseline = ...] and [self._lookup = ...], the two assignments the
    methods below make. *)
Definition with_baseline (self : EmoScores) (baseline : Baseline)
  : EmoScores :=
  {| language := language self;
     _emotion_lexicon := _emotion_lexicon self;
     _tagger := _tagger self;
     _stemmer := _stemmer self;
     _stem_or_lem := _stem_or_lem self;
     _emojis_dict := _emojis_dict self;
     _idiomatic_tokens := _idiomatic_tokens self;
     _antonyms := _antonyms self;
     _baseline := baseline;
     _lookup := _lookup self;
     emotionslist := emotionslist self;
     _emotion_model := _emotion_model self |}.

Definition with_lookup (self : EmoScores) (lookup : gmap nat Stats)
  : EmoScores :=
  {| language := language self;
     _emotion_lexicon := _emotion_lexicon self;
     _tagger := _tagger self;
     _stemmer := _stemmer self;
     _stem_or_lem := _stem_or_lem self;
     _emojis_dict := _emojis_dict self;
     _idiomatic_tokens := _idiomatic_tokens self;
     _antonyms := _antonyms self;
     _baseline := _baseline self;
     _lookup := lookup;
     emotionslist := emotionslist self;
     _emotion_model := _emotion_model self |}.

(** [EmoScores(language, spacy_model, emotion_model)]: the instance, or the
    exception of the loader or of the builder, in which case there is no
    instance.  The attribute [_emotionlist], which is set to [None] and
    never read, is left out. *)
Definition init (language : string) (spacy_model : option SpacyModel)
    (emotion_model : string) : result EmoScores :=
  emotion_lexicon ← _load_dictionary language None;
  baseline ← _make_baseline BNone (Some emotion_lexicon) (Some language)
                            None None None;
  let is_plutchik := String.eqb emotion_model "plutchik" in
  Ok {| language := language;
        _emotion_lexicon := emotion_lexicon;
        _tagger := match spacy_model with
                   | None => _load_spacy (Some language) None
                   | Some m => _load_spacy None (Some m)
                   end;
        _stemmer := None;
        _stem_or_lem := "lemmatization";
        _emojis_dict := _load_emojis language;
        _idiomatic_tokens := _load_idiomatic_tokens language None;
        _antonyms := _load_antonyms language;
        _baseline := baseline;
        _lookup := _load_lookup_table language;
        emotionslist := if is_plutchik then Some plutchik else None;
        _emotion_model := if is_plutchik then Some "plutchik" else None |}.

(** [set_stemming_lemmatization(stem_or_lem)]: the outcome and the instance
    after the call.  The loader of the lexicon is the first statement: when
    it raises nothing has been assigned. *)
Definition set_stemming_lemmatization (self : EmoScores)
    (stem_or_lem : string) : result () * EmoScores :=
  match _load_dictionary (language self) (Some stem_or_lem) with
  | Raise e => (Raise e, self)
  | Ok emotion_lexicon =>
      (Ok (),
       {| language := language self;
          _emotion_lexicon := emotion_lexicon;
          _tagger := _tagger self;
          _stemmer :=
            if String.eqb stem_or_lem "stemming" && is_None (_stemmer self)
            then Some (_load_stemmer (language self))
            else _stemmer self;
          _stem_or_lem := stem_or_lem;
          _emojis_dict := _emojis_dict self;
          _idiomatic_tokens :=
            _load_idiomatic_tokens (language self) (Some stem_or_lem);
          _antonyms := _antonyms self;
          _baseline := _baseline self;
          _lookup := _lookup self;
          emotionslist := emotionslist self;
          _emotion_model := _emotion_model self |})
  end.

(** [set_baseline(baseline)]: the outcome and the instance after the call.
    The builder runs before either assignment: when it raises, baseline and
    cache stay. *)
Definition set_baseline (self : EmoScores) (baseline : baseline_arg Row)
  : result () * EmoScores :=
  match _make_baseline baseline (Some (_emotion_lexicon self)) None
                       (Some (UseTagger (_tagger self)))
                       (Some (_emojis_dict self))
                       (Some (_idiomatic_tokens self)) with
  | Raise e => (Raise e, self)
  | Ok made => (Ok (), with_lookup (with_baseline self made) ∅)
  end.

(** [self._tagger if self._stem_or_lem == "lemmatization" else self._stemmer] *)
Definition current_model (self : EmoScores) : model Tagger Stemmer :=
  if String.eqb (_stem_or_lem self) "lemmatization"
  then UseTagger (_tagger self)
  else UseStemmer (_stemmer self).

(** Reading [self.emotionslist]. *)
Definition get_emotionslist (self : EmoScores) : result (list string) :=
  match emotionslist self with
  | Some emotions => Ok emotions
  | None => Raise (AttributeError "emotionslist")
  end.

Definition emotions (self : EmoScores) (o : obj)
    (normalization_strategy : string) (return_words convert_emojis : bool)
  : result Scores :=
  let model := current_model self in
  emotionslist ← get_emotionslist self;
  Ok (_get_emotions o normalization_strategy (_emotion_lexicon self)
        (language self) model emotionslist return_words (_emojis_dict self)
        convert_emojis (_idiomatic_tokens self)).

(** The first half of [zscores]: which baseline the call scores against, and
    the instance as the branch leaves it; when the builder raises, nothing
    has been assigned. *)
Definition resolve_baseline (self : EmoScores) (baseline : baseline_arg Row)
  : result (EmoScores * Baseline) :=
  let model := current_model self in
  if negb (truthy baseline) then
    if negb (baseline_truthy (_baseline self)) then
      made ← _make_baseline BNone (Some (_emotion_lexicon self))
                            (Some (language self)) (Some model) None None;
      Ok (with_baseline self made, made)
    else Ok (self, _baseline self)
  else
    made ← _make_baseline baseline (Some (_emotion_lexicon self))
                          (Some (language self)) (Some model) None None;
    Ok (self, made).

(** Modelled from the spec: [emo_scores._zscores], whose source file is not
    part of the sources at hand.  The sample size is the vertex count of a
    network and the token count of a text.  If the cache holds an entry for
    that size, the entry is reused; otherwise the statistics are resampled
    from the baseline and stored under the size.  The z-scores are computed
    from the observed counts and the statistics.  The dict [lookup] is the
    caller's: the function returns it as it leaves it. *)
Definition _zscores (o : obj) (baseline : Baseline) (n_samples : nat)
    (emotion_lexicon : Lexicon) (language : string)
    (tagger : model Tagger Stemmer) (emotions : list string)
    (lookup : gmap nat Stats) (emojis_dict : Emojis) (convert_emojis : bool)
    (idiomatic_tokens : Idioms) (rng : Rng)
  : ZScores * gmap nat Stats * Rng :=
  let n :=
    match o with
    | Network fmn => List.length (vertices fmn)
    | Text text =>
        token_count text language tagger emojis_dict convert_emojis
                    idiomatic_tokens
    end in
  let observed :=
    _get_emotions o "none" emotion_lexicon language tagger emotions false
                  emojis_dict convert_emojis idiomatic_tokens in
  match lookup !! n with
  | Some stats => (z_vector emotions observed stats, lookup, rng)
  | None =>
      let '(stats, rng) :=
        null_statistics rng baseline n n_samples emotion_lexicon emotions in
      (z_vector emotions observed stats, <[n := stats]> lookup, rng)
  end.

(** [zscores]: the outcome, the instance after the call and the random
    state.  [self._lookup] is passed by reference, so what [_zscores] stores
    in it is in the instance afterwards. *)
Definition zscores (self : EmoScores) (o : obj) (baseline : baseline_arg Row)
    (n_samples : nat) (convert_emojis : bool) (rng : Rng)
  : result ZScores * EmoScores * Rng :=
  let model := current_model self in
  match resolve_baseline self baseline with
  | Raise e => (Raise e, self, rng)
  | Ok (self, baseline) =>
      match get_emotionslist self with
      | Raise e => (Raise e, self, rng)
      | Ok emotionslist =>
          let '(z, lookup, rng) :=
            _zscores o baseline n_samples (_emotion_lexicon self)
                     (language self) model emotionslist (_lookup self)
                     (_emojis_dict self) convert_emojis
                     (_idiomatic_tokens self) rng in
          (Ok z, with_lookup self lookup, rng)
      end
  end.

(** The sample size [_zscores] computes for a call on [self]. *)
Definition sample_size (self : EmoScores) (o : obj) (convert_emojis : bool)
  : nat :=
  match o with
  | Network fmn => List.length (vertices fmn)
  | Text text =>
      token_count text (language self) (current_model self)
                  (_emojis_dict self) convert_emojis (_idiomatic_tokens self)
  end.

(** The counts [_zscores] observes for a call on [self]. *)
Definition observed (self : EmoScores) (o : obj) (emotions : list string)
    (convert_emojis : bool) : Scores :=
  _get_emotions o "none" (_emotion_lexicon self) (language self)
                (current_model self) emotions false (_emojis_dict self)
                convert_emojis (_idiomatic_tokens self).

(** One call of a method that assigns an attribute, whether it returns or
    raises, and any number of such calls; the other methods leave the
    instance as it is. *)
Inductive call : EmoScores → EmoScores → Prop :=
  | call_set_stemming_lemmatization self stem_or_lem :
      call self (set_stemming_lemmatization self stem_or_lem).2
  | call_set_baseline self baseline :
      call self (set_baseline self baseline).2
  | call_zscores self o baseline n_samples convert_emojis rng :
      call self (zscores self o baseline n_samples convert_emojis rng).1.2.

Definition calls : EmoScores → EmoScores → Prop := rtc call.

End EmoScores.

End Scorer.

(** ** Sample values *)

Module Samples.
Import Formamentis EdgeListIO Scorer.

(** A path of four words. *)
Definition path_edges : list edge :=
  [("a", "b"); ("b", "c"); ("c", "d")].

Definition flat_path : FormamentisNetwork :=
  mkFormamentisNetwork (Flat path_edges) ["a"; "b"; "c"; "d"].

(** The same edges under two kinds. *)
Definition two_kinds : FormamentisNetwork :=
  mkFormamentisNetwork
    (Multiplex {[ "syntactic" := [("a", "b"); ("b", "c")];
                  "synonyms" := [("c", "d")] ]})
    ["a"; "b"; "c"; "d"].

(** A working directory with no files. *)
Definition empty_world : World := mkWorld "/home/user" ∅.

(** An edge whose first word holds a line feed between two letters. *)
Definition broken_word : string := String "a" (String LF "b").

Definition broken_net : FormamentisNetwork :=
  mkFormamentisNetwork (Flat [(broken_word, "c")]) [broken_word; "c"].

(** A file of two edges, written with uneven spacing. *)
Definition two_lines : string :=
  "happy , joy" ++ String LF (" joy,  smile " ++ String LF EmptyString).

Definition two_lines_world : World :=
  mkWorld "/home/user" {[ "/home/user/net.txt" := two_lines ]}.

(** Collaborators that record what they were given: a lexicon is the mode
    it was loaded for, a baseline is the name of its source, the statistics
    resampled from a baseline are that name and the sample size, and the
    z-scores are the statistics they were computed from.  The random state
    counts the resamplings.  The loader knows the two modes.  The builder
    takes every baseline, or, when [strict], raises on a text and on a
    list. *)
Definition toy_with (strict : bool) : Collaborators := {|
  Lexicon := string;
  Tagger := ();
  Stemmer := ();
  SpacyModel := ();
  Emojis := ();
  Idioms := ();
  Antonyms := ();
  Row := list nat;
  Baseline := string;
  Stats := string * nat;
  Scores := nat;
  ZScores := string * nat;
  Rng := nat;
  _load_dictionary := λ _ mode,
    match mode with
    | None => Ok "lemmatization"
    | Some mode =>
        if String.eqb mode "lemmatization" || String.eqb mode "stemming"
        then Ok mode else Raise (ValueError "unknown mode")
    end;
  _load_spacy := λ _ _, ();
  _load_emojis := λ _, ();
  _load_antonyms := λ _, ();
  _load_idiomatic_tokens := λ _ _, ();
  _load_stemmer := λ _, ();
  _load_lookup_table := λ _, ∅;
  _make_baseline := λ baseline _ _ _ _ _,
    match baseline with
    | BNone => Ok "lexicon"
    | BText text =>
        if strict then Raise (TypeError "baseline") else Ok text
    | BDist _ =>
        if strict then Raise (TypeError "baseline") else Ok "distribution"
    end;
  baseline_truthy := λ baseline, negb (String.eqb baseline EmptyString);
  _get_emotions := λ _ _ _ _ _ _ _ _ _ _, 0;
  token_count := λ text _ _ _ _ _, String.length text;
  null_statistics := λ rng baseline n _ _ _, ((baseline, n), S rng);
  z_vector := λ _ _ stats, stats
|}.

Definition toy : Collaborators := toy_with false.

(** The instance the constructor builds for English, with the emotions
    attribute as given. *)
Definition scorer_with (strict : bool) (emotions0 : option (list string))
  : @EmoScores (toy_with strict) :=
  @mkEmoScores (toy_with strict) "english" "lemmatization" () None
    "lemmatization" () () () "lexicon" ∅ emotions0
    (match emotions0 with Some _ => Some "plutchik" | None => None end).

(** A scorer with the Plutchik emotions, and the same after it scored a
    text of three tokens. *)
Definition toy_scorer : @EmoScores toy := scorer_with false (Some plutchik).

Definition toy_scorer_used : @EmoScores toy :=
  (@zscores toy toy_scorer (Text "abc") BNone 300 true 0).1.2.

(** A scorer built for a model the class does not know. *)
Definition toy_scorer_other : @EmoScores toy := scorer_with false None.

End Samples.

(** ** Further notions and sample values *)

Module More.
Import Formamentis EdgeListIO Scorer.

(** The edge lists of a multiplex network in a row, in a given order of the
    kinds. *)
Definition edges_in_row (kinds : list string) (m : gmap string (list edge))
  : list edge :=
  kinds ≫= (λ k, m !!! k).

(** The two words that the export writes for a key of a dict: its first
    and its second character. *)
Definition initials (kind : string) : edge :=
  match kind with
  | String c0 (String c1 _) => (String c0 EmptyString, String c1 EmptyString)
  | _ => (EmptyString, EmptyString)
  end.

(** [v] is an endpoint of an edge of the collection. *)
Definition endpoint (ec : edge_collection) (v : string) : Prop :=
  match ec with
  | Flat es => ∃ e, e ∈ es ∧ (v = e.1 ∨ v = e.2)
  | Multiplex m => ∃ k es e, m !! k = Some es ∧ e ∈ es ∧ (v = e.1 ∨ v = e.2)
  end.

(** The edges of the collection that are on the target, kind by kind. *)
Definition target_edges (target_word : string) (ec : edge_collection)
  : edge_collection :=
  match ec with
  | Flat es => Flat (filter (incident target_word) es)
  | Multiplex m => Multiplex (filter (incident target_word) <$> m)
  end.

(** A line as the reading of a file yields it: a body without line breaks,
    with or without a line feed after it. *)
Definition unbroken (line : string) : Prop :=
  ∃ body,
    (line = body ++ String LF EmptyString ∨ line = body) ∧
    contains LF body = false ∧ contains CR body = false.

(** The dict of the sample network of two kinds, and its keys in the order
    they were put in. *)
Definition two_kinds_map : gmap string (list edge) :=
  {[ "syntactic" := [("a", "b"); ("b", "c")];
     "synonyms" := [("c", "d")] ]}.

Definition two_kinds_keys : list string := ["syntactic"; "synonyms"].

(** A file with a line that has no comma, after a good one. *)
Definition bad_lines : string :=
  "happy , joy" ++ String LF ("smile" ++ String LF EmptyString).

Definition bad_lines_world : World :=
  mkWorld "/home/user" {[ "/home/user/bad.txt" := bad_lines ]}.

(** A multiplex network with a kind whose name is one letter. *)
Definition short_kind : FormamentisNetwork :=
  mkFormamentisNetwork
    (Multiplex {[ "s" := [("a", "b")] ]}) ["a"; "b"].

(** The builder as [zscores] calls it for a baseline, and as [set_baseline]
    calls it. *)
Definition per_call_baseline `{C : Collaborators} (self : EmoScores)
    (baseline : baseline_arg Row) : result Baseline :=
  _make_baseline baseline (Some (_emotion_lexicon self))
                 (Some (language self)) (Some (current_model self))
                 None None.

Definition setter_baseline `{C : Collaborators} (self : EmoScores)
    (baseline : baseline_arg Row) : result Baseline :=
  _make_baseline baseline (Some (_emotion_lexicon self)) None
                 (Some (UseTagger (_tagger self)))
                 (Some (_emojis_dict self)) (Some (_idiomatic_tokens self)).

(** What the instance was built with, and what its mode says it holds. *)
Definition settled `{C : Collaborators} (language0 : string)
    (built self : EmoScores) : Prop :=
  language self = language0 ∧
  _tagger self = _tagger built ∧
  _emojis_dict self = _load_emojis language0 ∧
  _antonyms self = _load_antonyms language0 ∧
  (_stemmer self = None ∨ _stemmer self = Some (_load_stemmer language0)) ∧
  (_stem_or_lem self = "stemming" →
   _stemmer self = Some (_load_stemmer language0)) ∧
  ∃ mode : option string,
    _stem_or_lem self = default "lemmatization" mode ∧
    _load_dictionary language0 mode = Ok (_emotion_lexicon self) ∧
    _idiomatic_tokens self = _load_idiomatic_tokens language0 mode.

(** Collaborators whose builder raises on a text and on a list, a scorer
    of theirs after it scored a text of three tokens, and one built for a
    model the class does not know. *)
Definition strict : Collaborators := Samples.toy_with true.

Definition strict_scorer_used : @EmoScores strict :=
  (@zscores strict (Samples.scorer_with true (Some plutchik)) (Text "abc")
            BNone 300 true 0).1.2.

Definition strict_scorer_other : @EmoScores strict :=
  Samples.scorer_with true None.

End More.

(** * Properties of the target-word restriction *)

Module FormamentisFacts.
Import Formamentis.

(** *** Membership in the computed vertex sets *)

Lemma elem_of_chain (es : list edge) (v : string) :
  v ∈ chain es ↔ ∃ e, e ∈ es ∧ (v = e.1 ∨ v = e.2).
Proof.
  unfold chain. rewrite list_elem_of_bind. split.
  - intros (e & Hv & He). exists e. split; [done|].
    apply elem_of_cons in Hv as [Hv|Hv]; [by left|right].
    by apply list_elem_of_singleton in Hv.
  - intros (e & He & [Hv|Hv]); exists e; (split; [|done]); subst v.
    + by left.
    + right. by left.
Qed.

Lemma elem_of_endpoint_union (es : list edge) (v : string) :
  v ∈ endpoint_union es ↔ ∃ e, e ∈ es ∧ (v = e.1 ∨ v = e.2).
Proof.
  unfold endpoint_union. rewrite elem_of_union_list. split.
  - intros (X & HX & Hv). apply list_elem_of_fmap in HX as (e & -> & He).
    exists e. split; [done|]. set_solver.
  - intros (e & He & Hv). exists {[e.1; e.2]}. split.
    + apply list_elem_of_fmap. by exists e.
    + set_solver.
Qed.

Lemma elem_of_neighbours t es v :
  v ∈ endpoint_union (filter (incident t) es) ↔ neighbour_in t es v.
Proof.
  rewrite elem_of_endpoint_union. unfold neighbour_in.
  split.
  - intros (e & [Hinc He]%list_elem_of_filter & Hv). by exists e.
  - intros (e & He & Hinc & Hv). exists e. split; [|done].
    by apply list_elem_of_filter.
Qed.

Lemma chain_endpoint_union (es : list edge) :
  list_to_set (chain es) = endpoint_union es.
Proof.
  apply set_eq. intros v.
  by rewrite elem_of_list_to_set, elem_of_chain, elem_of_endpoint_union.
Qed.

Lemma elem_of_flat_final_vertex t es v :
  v ∈ flat_final_vertex t es ↔ neighbour_in t es v.
Proof.
  unfold flat_final_vertex. by rewrite chain_endpoint_union, elem_of_neighbours.
Qed.

Lemma elem_of_edge_types (m : gmap string (list edge)) (k : string) :
  k ∈ edge_types m ↔ is_Some (m !! k).
Proof.
  unfold edge_types. rewrite list_elem_of_fmap. split.
  - intros ([k' es] & -> & Hin). apply elem_of_map_to_list in Hin. by exists es.
  - intros [es Hes]. exists (k, es). split; [done|].
    by apply elem_of_map_to_list.
Qed.

(** A loop that unites a set per key collects exactly those sets. *)
Lemma elem_of_foldl_union (f : string → gset string) (ks : list string)
    (V0 : gset string) (v : string) :
  v ∈ foldl (λ V k, V ∪ f k) V0 ks ↔ v ∈ V0 ∨ ∃ k, k ∈ ks ∧ v ∈ f k.
Proof.
  revert V0. induction ks as [|k ks IH]; intros V0; simpl.
  - split; [by left|]. intros [?|(k & Hk & _)]; [done|]. by apply elem_of_nil in Hk.
  - rewrite IH, elem_of_union. split.
    + intros [[?|?]|(k' & Hk' & ?)].
      * by left.
      * right. exists k. split; [left|done].
      * right. exists k'. split; [by right|done].
    + intros [?|(k' & Hk' & ?)]; [by left; left|].
      apply elem_of_cons in Hk' as [->|Hk']; [by left; right|].
      right. by exists k'.
Qed.

Lemma elem_of_multiplex_final_vertex t (m : gmap string (list edge)) v :
  v ∈ multiplex_final_vertex t m ↔
  ∃ k es, m !! k = Some es ∧ neighbour_in t es v.
Proof.
  unfold multiplex_final_vertex.
  rewrite (elem_of_foldl_union
             (λ k, list_to_set (chain (filter (incident t) (m !!! k))))).
  split.
  - intros [Hv|(k & Hk & Hv)]; [by apply not_elem_of_empty in Hv|].
    apply elem_of_edge_types in Hk as [es Hes]. exists k, es. split; [done|].
    rewrite chain_endpoint_union, elem_of_neighbours in Hv.
    by rewrite (lookup_total_correct _ _ _ Hes) in Hv.
  - intros (k & es & Hes & Hv). right. exists k. split.
    + apply elem_of_edge_types. by exists es.
    + rewrite chain_endpoint_union, elem_of_neighbours.
      by rewrite (lookup_total_correct _ _ _ Hes).
Qed.

Lemma elem_of_closure_vertices t ec v :
  v ∈ closure_vertices t ec ↔ neighbour t ec v.
Proof.
  destruct ec as [es|m]; simpl.
  - apply elem_of_neighbours.
  - rewrite elem_of_union_list. split.
    + intros (X & HX & Hv).
      apply list_elem_of_fmap in HX as ([k es] & -> & Hin).
      apply elem_of_map_to_list in Hin. exists k, es. split; [done|].
      by apply elem_of_neighbours.
    + intros (k & es & Hes & Hv).
      exists (endpoint_union (filter (incident t) es)). split.
      * apply list_elem_of_fmap. exists (k, es). split; [done|].
        by apply elem_of_map_to_list.
      * by apply elem_of_neighbours.
Qed.

(** *** The second loop builds the kind-wise filtered dict *)

Lemma lookup_foldl_insert (f : string → list edge) (ks : list string)
    (d0 : gmap string (list edge)) (j : string) :
  foldl (λ d k, <[k := f k]> d) d0 ks !! j =
  if decide (j ∈ ks) then Some (f j) else d0 !! j.
Proof.
  revert d0. induction ks as [|k ks IH]; intros d0; simpl.
  - destruct (decide (j ∈ [])) as [Hj|Hj]; [by apply elem_of_nil in Hj|done].
  - rewrite IH. destruct (decide (j ∈ ks)) as [Hin|Hnin].
    + rewrite decide_True; [done|by right].
    + destruct (decide (j = k)) as [->|Hne].
      * rewrite decide_True; [|by left]. by rewrite lookup_insert_eq.
      * rewrite decide_False; [by rewrite lookup_insert_ne|].
        rewrite elem_of_cons. intros [?|?]; done.
Qed.

Lemma multiplex_final_edgelist_fmap V (m : gmap string (list edge)) :
  multiplex_final_edgelist V m = filter (both_in V) <$> m.
Proof.
  apply map_eq. intros j. unfold multiplex_final_edgelist.
  rewrite (lookup_foldl_insert (λ k, filter (both_in V) (m !!! k))).
  rewrite lookup_fmap, lookup_empty.
  destruct (decide (j ∈ edge_types m)) as [Hj|Hj].
  - apply elem_of_edge_types in Hj as [es Hes].
    by rewrite Hes, (lookup_total_correct _ _ _ Hes).
  - destruct (m !! j) as [es|] eqn:Hes; [|done].
    exfalso. apply Hj, elem_of_edge_types. by exists es.
Qed.

Lemma final_vertex_closure t (fmn : FormamentisNetwork) :
  match edges fmn with
  | Flat es => flat_final_vertex t es
  | Multiplex m => multiplex_final_vertex t m
  end = closure_vertices t (edges fmn).
Proof.
  apply set_eq. intros v. rewrite elem_of_closure_vertices.
  destruct (edges fmn) as [es|m]; simpl.
  - apply elem_of_flat_final_vertex.
  - apply elem_of_multiplex_final_vertex.
Qed.

(** The function in one equation: closed edges and the listed vertex set. *)
Lemma extract_word_unfold (fmn : FormamentisNetwork) (t : string) :
  extract_word_from_formamentis fmn t =
  mkFormamentisNetwork
    (closure_edges (closure_vertices t (edges fmn)) (edges fmn))
    (elements (closure_vertices t (edges fmn))).
Proof.
  unfold extract_word_from_formamentis.
  pose proof (final_vertex_closure t fmn) as HV.
  destruct (edges fmn) as [es|m]; simpl in *.
  - by rewrite HV.
  - by rewrite multiplex_final_edgelist_fmap, HV.
Qed.

(** *** Restricting twice *)

Lemma incident_both_in t ec (es : list edge) (e : edge) :
  (∀ v, neighbour_in t es v → v ∈ closure_vertices t ec) →
  e ∈ es → incident t e → both_in (closure_vertices t ec) e.
Proof.
  intros Hsub He Hinc. split; apply Hsub; exists e; auto.
Qed.

Lemma neighbour_closure_edges t ec v :
  neighbour t (closure_edges (closure_vertices t ec) ec) v ↔ neighbour t ec v.
Proof.
  destruct ec as [es|m]; simpl.
  - split.
    + intros (e & [_ He]%list_elem_of_filter & Hinc & Hv). by exists e.
    + intros (e & He & Hinc & Hv). exists e. split; [|done].
      apply list_elem_of_filter. split; [|done].
      apply (incident_both_in t (Flat es) es); [|done..].
      intros w Hw. by apply (elem_of_closure_vertices t (Flat es)).
  - split.
    + intros (k & es' & Hk & e & He & Hinc & Hv).
      rewrite lookup_fmap in Hk.
      destruct (m !! k) as [es|] eqn:Hes; [|done].
      injection Hk as <-. apply list_elem_of_filter in He as [_ He].
      exists k, es. split; [done|]. by exists e.
    + intros (k & es & Hes & e & He & Hinc & Hv).
      exists k, (filter (both_in (closure_vertices t (Multiplex m))) es).
      split; [by rewrite lookup_fmap, Hes|].
      exists e. split; [|done]. apply list_elem_of_filter. split; [|done].
      apply (incident_both_in t (Multiplex m) es); [|done..].
      intros w Hw. apply (elem_of_closure_vertices t (Multiplex m)).
      by exists k, es.
Qed.

Lemma closure_vertices_closure_edges t ec :
  closure_vertices t (closure_edges (closure_vertices t ec) ec) =
  closure_vertices t ec.
Proof.
  apply set_eq. intros v.
  by rewrite !elem_of_closure_vertices, neighbour_closure_edges.
Qed.

Lemma filter_idemp {A} (P : A → Prop) `{!∀ x, Decision (P x)} (l : list A) :
  filter P (filter P l) = filter P l.
Proof.
  rewrite list_filter_filter. apply list_filter_iff. tauto.
Qed.

Lemma closure_edges_idemp V ec :
  closure_edges V (closure_edges V ec) = closure_edges V ec.
Proof.
  destruct ec as [es|m]; simpl.
  - by rewrite filter_idemp.
  - f_equal. rewrite <- map_fmap_compose. apply map_fmap_ext.
    intros k es _. simpl. by rewrite filter_idemp.
Qed.

(** *** A target that occurs nowhere *)

Lemma absent_no_neighbour t ec v : absent t ec → ¬ neighbour t ec v.
Proof.
  destruct ec as [es|m]; simpl.
  - intros Habs (e & He & Hinc & _).
    by apply (proj1 (Forall_forall _ _) Habs e He).
  - intros Habs (k & es & Hes & e & He & Hinc & _).
    by apply (proj1 (Forall_forall _ _) (Habs k es Hes) e He).
Qed.

Lemma absent_closure_vertices t ec : absent t ec → closure_vertices t ec = ∅.
Proof.
  intros Habs. apply set_eq. intros v. rewrite elem_of_closure_vertices.
  split; [|by intros ?%not_elem_of_empty].
  intros Hv. by apply absent_no_neighbour in Hv.
Qed.

Lemma filter_both_in_empty (es : list edge) : filter (both_in ∅) es = [].
Proof.
  induction es as [|e es IH]; [done|].
  rewrite filter_cons_False; [done|].
  intros [H _]. by apply not_elem_of_empty in H.
Qed.

(** C3: the restriction first takes the edges on the target, then the union
    of their endpoints as the vertex set, then keeps exactly the original
    edges with both endpoints in that set, in their order; for a multiplex
    network the vertex set is the union over all kinds, the filter is
    applied kind by kind and the kinds stay the keys. *)
Theorem extract_word_depth_one_closure (fmn : FormamentisNetwork)
    (target_word : string) :
  let fmnt := extract_word_from_formamentis fmn target_word in
  let V := closure_vertices target_word (edges fmn) in
  (∀ v, v ∈ V ↔ neighbour target_word (edges fmn) v) ∧
  NoDup (vertices fmnt) ∧
  (∀ v, v ∈ vertices fmnt ↔ v ∈ V) ∧
  edges fmnt = closure_edges V (edges fmn) ∧
  match edges fmn, edges fmnt with
  | Flat es, Flat es' => es' = filter (both_in V) es
  | Multiplex m, Multiplex m' =>
      dom m' = dom m ∧ ∀ k, m' !! k = filter (both_in V) <$> m !! k
  | _, _ => False
  end.
Proof.
  intros fmnt V. subst fmnt. rewrite extract_word_unfold. fold V. simpl.
  split; [intros v; apply elem_of_closure_vertices|].
  split; [apply NoDup_elements|].
  split; [intros v; apply elem_of_elements|].
  split; [done|].
  destruct (edges fmn) as [es|m]; simpl; [done|].
  split; [apply dom_fmap_L|]. intros k. apply lookup_fmap.
Qed.

(** The closure stops at depth one: on the path a-b-c-d the frame of [a]
    is the single edge a-b, although b-c and c-d hang on it. *)
Example extract_word_not_transitive :
  extract_word_from_formamentis Samples.flat_path "a" =
  mkFormamentisNetwork (Flat [("a", "b")])
    (elements (list_to_set ["a"; "b"] : gset string)).
Proof. vm_compute. reflexivity. Qed.

(** C4: restricting a restricted network to the same target word changes
    neither the edge collection nor the vertex set. *)
Theorem extract_word_idempotent (fmn : FormamentisNetwork)
    (target_word : string) :
  let once := extract_word_from_formamentis fmn target_word in
  let twice := extract_word_from_formamentis once target_word in
  edges twice = edges once ∧
  (list_to_set (vertices twice) : gset string) = list_to_set (vertices once).
Proof.
  intros once twice. subst once twice. rewrite !extract_word_unfold. simpl.
  rewrite closure_vertices_closure_edges, closure_edges_idemp. done.
Qed.

(** C9: a target word that occurs in no edge gives an empty result and no
    failure: no vertices, and no edges for a flat network, every original
    kind with an empty edge list for a multiplex one. *)
Theorem extract_word_absent (fmn : FormamentisNetwork) (target_word : string) :
  absent target_word (edges fmn) →
  let fmnt := extract_word_from_formamentis fmn target_word in
  vertices fmnt = [] ∧
  match edges fmn with
  | Flat _ => edges fmnt = Flat []
  | Multiplex m => edges fmnt = Multiplex ((λ _, []) <$> m)
  end.
Proof.
  intros Habs fmnt. subst fmnt. rewrite extract_word_unfold. simpl.
  rewrite (absent_closure_vertices _ _ Habs). split; [apply elements_empty|].
  destruct (edges fmn) as [es|m]; simpl.
  - by rewrite filter_both_in_empty.
  - f_equal. apply map_fmap_ext. intros k es _. apply filter_both_in_empty.
Qed.

Lemma extract_word_absent_witness :
  absent "z" (edges Samples.two_kinds) ∧
  vertices (extract_word_from_formamentis Samples.two_kinds "z") = [] ∧
  edges (extract_word_from_formamentis Samples.two_kinds "z") =
  Multiplex ((λ _, []) <$>
             ({[ "syntactic" := [("a", "b"); ("b", "c")];
                 "synonyms" := [("c", "d")] ]} : gmap string (list edge))).
Proof.
  assert (Habs : absent "z" (edges Samples.two_kinds))
    by (apply (bool_decide_unpack _); vm_compute; exact I).
  split; [exact Habs|].
  exact (extract_word_absent Samples.two_kinds "z" Habs).
Defined.

(** *** Further properties of the restriction *)

Lemma filter_iff_in {A} (P Q : A → Prop) `{!∀ x, Decision (P x)}
    `{!∀ x, Decision (Q x)} (l : list A) :
  (∀ x, x ∈ l → (P x ↔ Q x)) → filter P l = filter Q l.
Proof.
  induction l as [|x l IH]; intros Hpq; [done|].
  assert (filter P l = filter Q l) as IH'.
  { apply IH. intros y Hy. apply Hpq. by right. }
  assert (P x ↔ Q x) as Hx by (apply Hpq; by left).
  destruct (decide (P x)) as [HP|HP].
  - rewrite !filter_cons_True by tauto. by rewrite IH'.
  - rewrite !filter_cons_False by tauto. done.
Qed.

Lemma filter_mjoin {A} (P : A → Prop) `{!∀ x, Decision (P x)}
    (ls : list (list A)) :
  filter P (mjoin ls) = mjoin (filter P <$> ls).
Proof.
  induction ls as [|l ls IH]; [done|]. simpl. by rewrite filter_app, IH.
Qed.

(** X1: the vertices returned are the endpoints of the edges returned, whatever
    the vertices of the network passed in were. *)
Theorem extract_word_vertices_are_endpoints (fmn : FormamentisNetwork)
    (target_word : string) (v : string) :
  let fmnt := extract_word_from_formamentis fmn target_word in
  v ∈ vertices fmnt ↔ More.endpoint (edges fmnt) v.
Proof.
  intros fmnt. subst fmnt. rewrite extract_word_unfold. simpl.
  rewrite elem_of_elements, elem_of_closure_vertices.
  destruct (edges fmn) as [es|m] eqn:Hec; simpl.
  - split.
    + intros (e & He & Hinc & Hv). exists e. split; [|done].
      apply list_elem_of_filter. split; [|done].
      apply (incident_both_in target_word (Flat es) es); [|done..].
      intros w Hw. by apply (elem_of_closure_vertices _ (Flat es)).
    + intros (e & [[H1 H2] He]%list_elem_of_filter & [->| ->]).
      * by apply (elem_of_closure_vertices _ (Flat es)) in H1.
      * by apply (elem_of_closure_vertices _ (Flat es)) in H2.
  - split.
    + intros (k & es & Hes & e & He & Hinc & Hv).
      exists k, (filter (both_in (closure_vertices target_word (Multiplex m)))
                        es), e.
      split; [by rewrite lookup_fmap, Hes|]. split; [|done].
      apply list_elem_of_filter. split; [|done].
      apply (incident_both_in target_word (Multiplex m) es); [|done..].
      intros w Hw. apply (elem_of_closure_vertices _ (Multiplex m)).
      by exists k, es.
    + intros (k & es' & e & Hk & He & Hv). rewrite lookup_fmap in Hk.
      destruct (m !! k) as [es|] eqn:Hes; [|done]. injection Hk as <-.
      apply list_elem_of_filter in He as [[H1 H2] He].
      destruct Hv as [->| ->].
      * by apply (elem_of_closure_vertices _ (Multiplex m)) in H1.
      * by apply (elem_of_closure_vertices _ (Multiplex m)) in H2.
Qed.

(** X2: the restriction keeps every edge of the target word, in every kind: the
    edges on the target are the same before and after. *)
Theorem extract_word_keeps_target_edges (fmn : FormamentisNetwork)
    (target_word : string) :
  More.target_edges target_word
    (edges (extract_word_from_formamentis fmn target_word)) =
  More.target_edges target_word (edges fmn).
Proof.
  rewrite extract_word_unfold. simpl.
  destruct (edges fmn) as [es|m] eqn:Hec; simpl; f_equal.
  - rewrite list_filter_filter. apply filter_iff_in. intros e He.
    split; [tauto|]. intros Hinc. split; [done|].
    apply (incident_both_in target_word (Flat es) es); [|done..].
    intros w Hw. by apply (elem_of_closure_vertices _ (Flat es)).
  - rewrite <- map_fmap_compose. apply map_fmap_ext. intros k es Hes. simpl.
    rewrite list_filter_filter. apply filter_iff_in. intros e He.
    split; [tauto|]. intros Hinc. split; [done|].
    apply (incident_both_in target_word (Multiplex m) es); [|done..].
    intros w Hw. apply (elem_of_closure_vertices _ (Multiplex m)).
    by exists k, es.
Qed.

Lemma not_in_closure_absent t ec : t ∉ closure_vertices t ec → absent t ec.
Proof.
  rewrite elem_of_closure_vertices. destruct ec as [es|m]; simpl.
  - intros Hno. apply Forall_forall. intros e He Hinc. apply Hno.
    by exists e.
  - intros Hno k es Hes. apply Forall_forall. intros e He Hinc. apply Hno.
    exists k, es. split; [done|]. by exists e.
Qed.

(** X3: the result is empty exactly when the target word occurs in no edge, and
    otherwise the target word is one of its vertices. *)
Theorem extract_word_empty_iff_absent (fmn : FormamentisNetwork)
    (target_word : string) :
  let fmnt := extract_word_from_formamentis fmn target_word in
  (vertices fmnt = [] ↔ absent target_word (edges fmn)) ∧
  (target_word ∈ vertices fmnt ↔ ¬ absent target_word (edges fmn)).
Proof.
  intros fmnt. subst fmnt. rewrite extract_word_unfold. simpl.
  set (V := closure_vertices target_word (edges fmn)).
  assert (absent target_word (edges fmn) → V = ∅) as Habs
    by apply absent_closure_vertices.
  assert (target_word ∉ V → absent target_word (edges fmn)) as Hnot
    by apply not_in_closure_absent.
  split; split.
  - intros HV%elements_empty_inv%leibniz_equiv. apply Hnot. rewrite HV.
    apply not_elem_of_empty.
  - intros ->%Habs. apply elements_empty.
  - intros Hin%elem_of_elements ?%Habs. rewrite H in Hin.
    by apply not_elem_of_empty in Hin.
  - intros Hna. apply elem_of_elements.
    destruct (decide (target_word ∈ V)) as [|Hn]; [done|].
    by apply Hnot in Hn.
Qed.

Lemma elem_of_edges_in_row (kinds : list string)
    (m : gmap string (list edge)) (e : edge) :
  (∀ k, is_Some (m !! k) → k ∈ kinds) →
  e ∈ More.edges_in_row kinds m ↔ ∃ k es, m !! k = Some es ∧ e ∈ es.
Proof.
  intros Hall. unfold More.edges_in_row. rewrite list_elem_of_bind. split.
  - intros (k & He & Hk). rewrite lookup_total_alt in He.
    destruct (m !! k) as [es|] eqn:Hes; simpl in He.
    + by exists k, es.
    + by apply elem_of_nil in He.
  - intros (k & es & Hes & He). exists k. split.
    + by rewrite lookup_total_alt, Hes.
    + apply Hall. by exists es.
Qed.

Lemma edges_in_row_filter (P : edge → Prop) `{!∀ e, Decision (P e)}
    (kinds : list string) (m : gmap string (list edge)) :
  More.edges_in_row kinds (filter P <$> m) =
  filter P (More.edges_in_row kinds m).
Proof.
  unfold More.edges_in_row. induction kinds as [|k kinds IH]; [done|].
  rewrite !bind_cons, filter_app, IH. f_equal.
  rewrite !lookup_total_alt, lookup_fmap. by destruct (m !! k).
Qed.

(** X4: the two shapes agree: a multiplex network gives the vertex set that
    the flat network of all its edge lists in a row gives, and its kept
    edges, kind after kind, are the kept edges of that flat network; this
    for every order of the kinds. *)
Theorem extract_word_shapes_agree (m : gmap string (list edge))
    (kinds : list string) (vs vs' : list string) (target_word : string) :
  (∀ k, is_Some (m !! k) → k ∈ kinds) →
  let multi :=
    extract_word_from_formamentis
      (mkFormamentisNetwork (Multiplex m) vs) target_word in
  let flat :=
    extract_word_from_formamentis
      (mkFormamentisNetwork (Flat (More.edges_in_row kinds m)) vs')
      target_word in
  (list_to_set (vertices multi) : gset string) =
  list_to_set (vertices flat) ∧
  match edges multi, edges flat with
  | Multiplex m', Flat es' => More.edges_in_row kinds m' = es'
  | _, _ => False
  end.
Proof.
  intros Hall multi flat. subst multi flat.
  rewrite !extract_word_unfold. simpl.
  assert ((⋃ ((λ kes : string * list edge,
                 endpoint_union (filter (incident target_word) kes.2))
              <$> map_to_list m) : gset string) =
          endpoint_union
            (filter (incident target_word) (More.edges_in_row kinds m)))
    as HV.
  { apply set_eq. intros v.
    rewrite (elem_of_closure_vertices target_word (Multiplex m) v).
    rewrite (elem_of_closure_vertices target_word
               (Flat (More.edges_in_row kinds m)) v). simpl. split.
    - intros (k & es & Hes & e & He & ?). exists e. split; [|done].
      apply elem_of_edges_in_row; [done|]. by exists k, es.
    - intros (e & He & ?).
      apply elem_of_edges_in_row in He as (k & es & Hes & He); [|done].
      exists k, es. split; [done|]. by exists e. }
  rewrite HV, !list_to_set_elements_L. split; [done|].
  apply edges_in_row_filter.
Qed.

Lemma extract_word_shapes_agree_witness :
  (∀ k, is_Some (More.two_kinds_map !! k) → k ∈ More.two_kinds_keys) ∧
  (list_to_set
     (vertices
        (extract_word_from_formamentis
           (mkFormamentisNetwork (Multiplex More.two_kinds_map) []) "b"))
   : gset string) =
  list_to_set
    (vertices
       (extract_word_from_formamentis
          (mkFormamentisNetwork
             (Flat (More.edges_in_row More.two_kinds_keys
                      More.two_kinds_map)) []) "b")).
Proof.
  assert (H : ∀ k, is_Some (More.two_kinds_map !! k) →
                   k ∈ More.two_kinds_keys).
  { intros k [es Hk]. unfold More.two_kinds_map in Hk.
    apply lookup_insert_Some in Hk as [[<- _]|[_ Hk]]; [by left|].
    apply lookup_singleton_Some in Hk as [<- _]. right. by left. }
  split; [exact H|].
  exact (proj1 (extract_word_shapes_agree More.two_kinds_map
                  More.two_kinds_keys [] [] "b" H)).
Defined.

End FormamentisFacts.

(** * Properties of the edge-list files *)

Module EdgeListIOFacts.
Import Formamentis EdgeListIO.

(** *** Appending strings *)

Lemma str_app_cons (c : ascii) (s t : string) :
  String c s ++ t = String c (s ++ t).
Proof. reflexivity. Qed.

Lemma str_app_nil_l (t : string) : EmptyString ++ t = t.
Proof. reflexivity. Qed.

Lemma str_app_nil_r (s : string) : s ++ EmptyString = s.
Proof. induction s as [|c s IH]; [done|]. by rewrite str_app_cons, IH. Qed.

Lemma str_app_assoc (s t u : string) : (s ++ t) ++ u = s ++ (t ++ u).
Proof.
  induction s as [|c s IH]; [done|]. by rewrite !str_app_cons, IH.
Qed.

Lemma contains_app (c : ascii) (s t : string) :
  contains c (s ++ t) = contains c s || contains c t.
Proof.
  induction s as [|c' s IH]; [done|].
  rewrite str_app_cons. simpl. rewrite IH. by destruct (Ascii.eqb c' c).
Qed.

(** *** split *)

Lemma split_no_sep (sep : ascii) (s : string) :
  contains sep s = false → split sep s = [s].
Proof.
  induction s as [|c s IH]; [done|]. simpl.
  destruct (Ascii.eqb c sep); [done|]. simpl. intros H. by rewrite IH.
Qed.

Lemma split_app_sep (sep : ascii) (s t : string) :
  contains sep s = false →
  split sep (s ++ String sep t) = s :: split sep t.
Proof.
  induction s as [|c s IH].
  - intros _. rewrite str_app_nil_l. simpl. by rewrite Ascii.eqb_refl.
  - rewrite str_app_cons. simpl.
    destruct (Ascii.eqb c sep); [done|]. simpl. intros H. by rewrite IH.
Qed.

Lemma contains_count_commas (s : string) :
  contains comma s = false ↔ count_commas s = 0.
Proof.
  induction s as [|c s IH]; [done|]. simpl.
  destruct (Ascii.eqb c comma); simpl; [split; [done|lia]|exact IH].
Qed.

Lemma split_one_comma (line : string) :
  count_commas line = 1 →
  split comma line = [before_comma line; after_comma line].
Proof.
  induction line as [|c line IH]; [done|]. simpl.
  destruct (Ascii.eqb c comma); simpl.
  - intros H. rewrite split_no_sep; [done|].
    apply contains_count_commas. lia.
  - intros H. by rewrite IH.
Qed.

Lemma split_length (s : string) :
  List.length (split comma s) = S (count_commas s).
Proof.
  induction s as [|c s IH]; [done|]. simpl.
  destruct (Ascii.eqb c comma); simpl; [by rewrite IH|].
  destruct (split comma s); simpl in *; [lia|done].
Qed.

(** *** strip *)

Lemma lstrip_id (s : string) : starts_with_space s = false → lstrip s = s.
Proof. destruct s as [|c s]; [done|]. simpl. by intros ->. Qed.

Lemma rstrip_id (s : string) : ends_with_space s = false → rstrip s = s.
Proof.
  induction s as [|c s IH]; [done|]. simpl.
  destruct s as [|c' s']; simpl in *.
  - by intros ->.
  - intros H. by rewrite (IH H).
Qed.

Lemma strip_id (s : string) : trimmed s → strip s = s.
Proof.
  intros [Hl Hr]. unfold strip. rewrite (lstrip_id _ Hl). by apply rstrip_id.
Qed.

Lemma rstrip_app_space (s : string) (c : ascii) :
  isspace c = true → rstrip (s ++ String c EmptyString) = rstrip s.
Proof.
  intros Hc. induction s as [|c' s IH].
  - rewrite str_app_nil_l. simpl. by rewrite Hc.
  - rewrite str_app_cons. simpl. by rewrite IH.
Qed.

Lemma lstrip_app (s t : string) :
  starts_with_space s = false → s ≠ EmptyString → lstrip (s ++ t) = s ++ t.
Proof.
  destruct s as [|c s]; [done|]. simpl. intros Hc _.
  rewrite str_app_cons. simpl. by rewrite Hc.
Qed.

(** The word before the separator of a written line, and the word after
    it. *)
Lemma strip_left_word (a : string) :
  trimmed a → strip (a ++ " ") = a.
Proof.
  intros [Hl Hr]. unfold strip. destruct a as [|c a].
  - reflexivity.
  - rewrite lstrip_app; [|done..].
    rewrite rstrip_app_space; [|done]. by apply rstrip_id.
Qed.

Lemma strip_right_word (b : string) :
  trimmed b → strip (" " ++ b ++ String LF EmptyString) = b.
Proof.
  intros [Hl Hr]. unfold strip.
  change (" " ++ b ++ String LF EmptyString)
    with (String " " (b ++ String LF EmptyString)).
  change (lstrip (String " " (b ++ String LF EmptyString)))
    with (lstrip (b ++ String LF EmptyString)).
  destruct b as [|c b].
  - reflexivity.
  - rewrite lstrip_app; [|done..].
    rewrite rstrip_app_space; [|done]. by apply rstrip_id.
Qed.

(** What [strip] removes and what it leaves. *)
Lemma lstrip_spec (s : string) :
  ∃ l, s = l ++ lstrip s ∧ blank l = true ∧
       starts_with_space (lstrip s) = false.
Proof.
  induction s as [|c s (l & Hs & Hl & Hst)].
  - by exists EmptyString.
  - simpl. destruct (isspace c) eqn:Hc.
    + exists (String c l). rewrite str_app_cons, <- Hs. simpl. by rewrite Hc, Hl.
    + exists EmptyString. simpl. by rewrite Hc.
Qed.

Lemma rstrip_spec (s : string) :
  ∃ r, s = rstrip s ++ r ∧ blank r = true ∧
       ends_with_space (rstrip s) = false.
Proof.
  induction s as [|c s (r & Hs & Hr & Hend)].
  - by exists EmptyString.
  - simpl. destruct (rstrip s) as [|c' kept] eqn:Hk.
    + rewrite str_app_nil_l in Hs. subst r. destruct (isspace c) eqn:Hc.
      * exists (String c s). simpl. by rewrite Hc, Hr.
      * exists s. simpl. by rewrite Hc, Hr.
    + exists r. by rewrite str_app_cons, <- Hs.
Qed.

Lemma rstrip_starts (s : string) :
  starts_with_space s = false → starts_with_space (rstrip s) = false.
Proof.
  destruct s as [|c s]; [done|]. simpl. intros Hc.
  destruct (rstrip s); simpl; by rewrite Hc.
Qed.

Lemma strip_spec (s : string) :
  ∃ l r, s = l ++ strip s ++ r ∧ blank l = true ∧ blank r = true ∧
         trimmed (strip s).
Proof.
  destruct (lstrip_spec s) as (l & Hs & Hl & Hst).
  destruct (rstrip_spec (lstrip s)) as (r & Hs' & Hr & Hend).
  exists l, r. unfold strip, trimmed. repeat split; try done.
  - by rewrite <- Hs'.
  - by apply rstrip_starts.
Qed.

(** *** Lines *)

Lemma comma_split_line (line : string) :
  count_commas line = 1 →
  line = before_comma line ++ String comma (after_comma line) ∧
  contains comma (before_comma line) = false.
Proof.
  induction line as [|c line IH]; [done|]. simpl.
  destruct (Ascii.eqb c comma) eqn:Hc; simpl.
  - intros _. apply Ascii.eqb_eq in Hc as ->. by rewrite str_app_nil_l.
  - intros H. destruct (IH H) as [Hl Hb]. rewrite str_app_cons, <- Hl.
    simpl. by rewrite Hc.
Qed.

Lemma line_edge_names (line : string) :
  count_commas line = 1 → names line (line_edge line).
Proof.
  intros H. destruct (comma_split_line line H) as [Hline Hb].
  destruct (strip_spec (before_comma line)) as (l1 & r1 & E1 & ? & ? & ?).
  destruct (strip_spec (after_comma line)) as (l2 & r2 & E2 & ? & ? & ?).
  exists l1, r1, l2, r2. unfold line_edge. simpl.
  rewrite <- E1, <- E2. auto 10.
Qed.

Lemma unpack_line_one_comma (line : string) :
  count_commas line = 1 → unpack_line line = Ok (line_edge line).
Proof.
  intros H. unfold unpack_line. by rewrite (split_one_comma _ H).
Qed.

(** Any other number of commas makes the unpacking fail. *)
Lemma unpack_line_other (line : string) :
  count_commas line ≠ 1 → ∃ msg, unpack_line line = Raise (ValueError msg).
Proof.
  intros H. unfold unpack_line. pose proof (split_length line) as Hlen.
  destruct (split comma line) as [|p1 [|p2 [|p3 ps]]]; simpl in *;
    try (eexists; reflexivity); lia.
Qed.

Lemma readlines_line (word rest : string) :
  contains LF word = false → contains CR word = false →
  readlines (word ++ String LF rest) =
  (word ++ String LF EmptyString) :: readlines rest.
Proof.
  induction word as [|c word IH]; [done|].
  rewrite !str_app_cons. simpl.
  destruct (Ascii.eqb c LF); [done|]. destruct (Ascii.eqb c CR); [done|].
  simpl. intros H1 H2. by rewrite (IH H1 H2).
Qed.

(** *** The two loops *)

Lemma write_pairs_flat (es : list edge) (content : string) :
  write_pairs flat_line es content = (content ++ file_text es, Ok ()).
Proof.
  revert content. induction es as [|e es IH]; intros content; simpl.
  - by rewrite str_app_nil_r.
  - by rewrite IH, str_app_assoc.
Qed.

Lemma endpoint_union_cons (e : edge) (es : list edge) :
  endpoint_union (e :: es) = {[e.1; e.2]} ∪ endpoint_union es.
Proof. reflexivity. Qed.

Lemma import_lines_well_formed (lines : list string) (es : list edge)
    (vs : gset string) :
  Forall (λ line, count_commas line = 1) lines →
  import_lines lines es vs =
  Ok ((es ++ (line_edge <$> lines))%list,
      vs ∪ endpoint_union (line_edge <$> lines)).
Proof.
  intros Hwf. revert es vs.
  induction Hwf as [|line lines Hline _ IH]; intros es vs; simpl.
  - rewrite app_nil_r. do 2 f_equal. unfold endpoint_union. simpl.
    by rewrite (right_id_L ∅ (∪)).
  - rewrite (unpack_line_one_comma _ Hline). unfold line_edge at 1.
    rewrite IH. fold (line_edge line). rewrite <- List.app_assoc. simpl.
    do 2 f_equal. rewrite endpoint_union_cons. simpl.
    rewrite (right_id_L ∅ (∪)), !(assoc_L (∪)). done.
Qed.

(** *** sorted *)

Lemma sorted_spec (V : gset string) :
  StronglySorted String.le (sorted V) ∧ NoDup (sorted V) ∧
  ∀ v, v ∈ sorted V ↔ v ∈ V.
Proof.
  unfold sorted. split; [apply StronglySorted_merge_sort; apply _|]. split.
  - rewrite merge_sort_Permutation. apply NoDup_elements.
  - intros v. rewrite merge_sort_Permutation. apply elem_of_elements.
Qed.

(** *** Written lines read back *)

Lemma format_pair_comma (a b : string) :
  format_pair a b =
  (a ++ " ") ++ String comma (" " ++ b ++ String LF EmptyString).
Proof. unfold format_pair. by rewrite str_app_assoc. Qed.

Lemma format_pair_line (a b rest : string) :
  format_pair a b ++ rest = (a ++ " , " ++ b) ++ String LF rest.
Proof. unfold format_pair. by rewrite !str_app_assoc. Qed.

Lemma count_commas_app (s t : string) :
  count_commas (s ++ t) = count_commas s + count_commas t.
Proof.
  induction s as [|c s IH]; [done|]. rewrite str_app_cons. simpl.
  rewrite IH. lia.
Qed.

Lemma before_comma_app (s t : string) :
  contains comma s = false → before_comma (s ++ String comma t) = s.
Proof.
  induction s as [|c s IH].
  - intros _. by rewrite str_app_nil_l.
  - rewrite str_app_cons. simpl. destruct (Ascii.eqb c comma); [done|].
    simpl. intros H. by rewrite IH.
Qed.

Lemma after_comma_app (s t : string) :
  contains comma s = false → after_comma (s ++ String comma t) = t.
Proof.
  induction s as [|c s IH].
  - intros _. by rewrite str_app_nil_l.
  - rewrite str_app_cons. simpl. destruct (Ascii.eqb c comma); [done|].
    simpl. intros H. by rewrite IH.
Qed.

Lemma format_pair_one_comma (a b : string) :
  contains comma a = false → contains comma b = false →
  count_commas (format_pair a b) = 1.
Proof.
  intros Ha%contains_count_commas Hb%contains_count_commas.
  rewrite format_pair_comma, count_commas_app. simpl.
  rewrite !count_commas_app, Ha, Hb. reflexivity.
Qed.

Lemma line_edge_format_pair (a b : string) :
  plain_word a → plain_word b → line_edge (format_pair a b) = (a, b).
Proof.
  intros [Ha Hta] [Hb Htb]. unfold line_edge.
  assert (contains comma (a ++ " ") = false) as Hc
    by (rewrite contains_app, Ha; reflexivity).
  rewrite format_pair_comma, before_comma_app, after_comma_app by done.
  by rewrite strip_left_word, strip_right_word.
Qed.

Lemma readlines_file_text (es : list edge) :
  Forall (λ e : edge, one_line_word e.1 ∧ one_line_word e.2) es →
  readlines (file_text es) = (λ e : edge, format_pair e.1 e.2) <$> es.
Proof.
  induction 1 as [|[a b] es [(_ & Ha1 & Ha2) (_ & Hb1 & Hb2)] _ IH];
    [done|].
  simpl in *. rewrite format_pair_line, readlines_line, IH.
  - f_equal. unfold format_pair. by rewrite !str_app_assoc.
  - rewrite !contains_app, Ha1, Hb1. reflexivity.
  - rewrite !contains_app, Ha2, Hb2. reflexivity.
Qed.

Lemma written_lines_well_formed (es : list edge) :
  Forall (λ e : edge, plain_word e.1 ∧ plain_word e.2) es →
  Forall (λ line, count_commas line = 1)
         ((λ e : edge, format_pair e.1 e.2) <$> es) ∧
  line_edge <$> ((λ e : edge, format_pair e.1 e.2) <$> es) = es.
Proof.
  induction 1 as [|[a b] es [Ha Hb] _ [IH1 IH2]]; [by split|].
  simpl in *. split.
  - constructor; [|done]. apply format_pair_one_comma; [apply Ha|apply Hb].
  - f_equal; [by apply line_edge_format_pair|exact IH2].
Qed.

Lemma one_line_words_plain (es : list edge) :
  Forall (λ e : edge, one_line_word e.1 ∧ one_line_word e.2) es →
  Forall (λ e : edge, plain_word e.1 ∧ plain_word e.2) es.
Proof.
  intros H. eapply Forall_impl; [exact H|].
  intros e [[? _] [? _]]. by split.
Qed.

(** C5, amended: for a flat network whose words hold no comma, no line
    break and no whitespace at either end, the export succeeds and the
    import of the written file gives back the same edge sequence, with the
    sorted union of the endpoints as the vertices. *)
Theorem export_import_round_trip (w : World) (es : list edge)
    (vs kinds : list string) (filename path : option string) :
  Forall (λ e : edge, one_line_word e.1 ∧ one_line_word e.2) es →
  let fmnt := mkFormamentisNetwork (Flat es) vs in
  let written := export_formamentis w fmnt kinds filename path in
  written.2 = Ok () ∧
  ∃ vs',
    import_formamentis written.1 (Some (export_filepath w filename path)) =
    Ok (mkFormamentisNetwork (Flat es) vs') ∧
    vs' = sorted (endpoint_union es) ∧
    StronglySorted String.le vs' ∧ NoDup vs' ∧
    ∀ v, v ∈ vs' ↔ ∃ e, e ∈ es ∧ (v = e.1 ∨ v = e.2).
Proof.
  intros Hes fmnt written. subst fmnt written.
  unfold export_formamentis. simpl. rewrite write_pairs_flat, str_app_nil_l.
  simpl. split; [done|]. exists (sorted (endpoint_union es)).
  rewrite lookup_insert_eq, (readlines_file_text _ Hes).
  destruct (written_lines_well_formed es (one_line_words_plain _ Hes))
    as [Hwf Hback].
  rewrite (import_lines_well_formed _ _ _ Hwf), Hback. simpl.
  rewrite (left_id_L ∅ (∪)).
  destruct (sorted_spec (endpoint_union es)) as (Hs & Hn & Hv).
  repeat split; try done.
  - intros H%Hv. by apply FormamentisFacts.elem_of_endpoint_union.
  - intros H. by apply Hv, FormamentisFacts.elem_of_endpoint_union.
Qed.

Lemma export_import_round_trip_witness :
  Forall (λ e : edge, one_line_word e.1 ∧ one_line_word e.2)
         Samples.path_edges ∧
  (export_formamentis Samples.empty_world Samples.flat_path []
     (Some "net") None).2 = Ok () ∧
  ∃ vs',
    import_formamentis
      (export_formamentis Samples.empty_world Samples.flat_path []
         (Some "net") None).1
      (Some (export_filepath Samples.empty_world (Some "net") None)) =
    Ok (mkFormamentisNetwork (Flat Samples.path_edges) vs') ∧
    vs' = sorted (endpoint_union Samples.path_edges) ∧
    StronglySorted String.le vs' ∧ NoDup vs' ∧
    ∀ v, v ∈ vs' ↔ ∃ e, e ∈ Samples.path_edges ∧ (v = e.1 ∨ v = e.2).
Proof.
  assert (Hes : Forall (λ e : edge, one_line_word e.1 ∧ one_line_word e.2)
                       Samples.path_edges)
    by (repeat constructor).
  split; [exact Hes|].
  exact (export_import_round_trip Samples.empty_world Samples.path_edges
           ["a"; "b"; "c"; "d"] [] (Some "net") None Hes).
Defined.

(** C5 as stated fails: a word with a line feed between two letters holds
    no comma and no whitespace at either end, yet the written file has the
    word on two lines and the import stops at the first. *)
Lemma round_trip_line_break_counterexample :
  Forall (λ e : edge, plain_word e.1 ∧ plain_word e.2)
         [(Samples.broken_word, "c")] ∧
  edges Samples.broken_net = Flat [(Samples.broken_word, "c")] ∧
  (export_formamentis Samples.empty_world Samples.broken_net [] None
     None).2 = Ok () ∧
  import_formamentis
    (export_formamentis Samples.empty_world Samples.broken_net [] None
       None).1
    (Some (export_filepath Samples.empty_world None None)) =
  Raise (ValueError "not enough values to unpack (expected 2, got 1)").
Proof.
  split; [repeat constructor|]. split; [reflexivity|].
  split; [reflexivity|]. vm_compute. reflexivity.
Qed.

(** C6: for a well-formed file the import returns a flat network with one
    edge per line, in file order, each the two words the line names without
    their surrounding whitespace; the vertices are the endpoints of the
    edges, sorted and without repetition. *)
Theorem import_formamentis_well_formed (w : World)
    (filepath content : string) :
  files w !! filepath = Some content →
  well_formed content →
  ∃ es vs,
    import_formamentis w (Some filepath) =
    Ok (mkFormamentisNetwork (Flat es) vs) ∧
    es = line_edge <$> readlines content ∧
    Forall2 names (readlines content) es ∧
    StronglySorted String.le vs ∧ NoDup vs ∧
    ∀ v, v ∈ vs ↔ ∃ e, e ∈ es ∧ (v = e.1 ∨ v = e.2).
Proof.
  intros Hfile Hwf. unfold well_formed in Hwf.
  exists (line_edge <$> readlines content),
         (sorted (endpoint_union (line_edge <$> readlines content))).
  unfold import_formamentis.
  rewrite Hfile, (import_lines_well_formed _ _ _ Hwf). simpl.
  rewrite (left_id_L ∅ (∪)).
  destruct (sorted_spec (endpoint_union (line_edge <$> readlines content)))
    as (Hs & Hn & Hv).
  repeat split; try done.
  - apply Forall2_fmap_r, Forall_Forall2_diag.
    eapply Forall_impl; [exact Hwf|]. apply line_edge_names.
  - intros H%Hv. by apply FormamentisFacts.elem_of_endpoint_union.
  - intros H. by apply Hv, FormamentisFacts.elem_of_endpoint_union.
Qed.

Lemma import_formamentis_well_formed_witness :
  files Samples.two_lines_world !! "/home/user/net.txt" =
  Some Samples.two_lines ∧
  well_formed Samples.two_lines ∧
  ∃ es vs,
    import_formamentis Samples.two_lines_world (Some "/home/user/net.txt") =
    Ok (mkFormamentisNetwork (Flat es) vs) ∧
    es = line_edge <$> readlines Samples.two_lines ∧
    Forall2 names (readlines Samples.two_lines) es ∧
    StronglySorted String.le vs ∧ NoDup vs ∧
    ∀ v, v ∈ vs ↔ ∃ e, e ∈ es ∧ (v = e.1 ∨ v = e.2).
Proof.
  assert (Hfile : files Samples.two_lines_world !! "/home/user/net.txt" =
                  Some Samples.two_lines) by reflexivity.
  assert (Hwf : well_formed Samples.two_lines) by (repeat constructor).
  split; [exact Hfile|]. split; [exact Hwf|].
  exact (import_formamentis_well_formed Samples.two_lines_world
           "/home/user/net.txt" Samples.two_lines Hfile Hwf).
Defined.

(** The sample file read back: the words come out trimmed and the vertices
    in order. *)
Example import_two_lines :
  import_formamentis Samples.two_lines_world (Some "/home/user/net.txt") =
  Ok (mkFormamentisNetwork (Flat [("happy", "joy"); ("joy", "smile")])
        ["happy"; "joy"; "smile"]).
Proof. vm_compute. reflexivity. Qed.

(** *** When the import fails *)

Lemma import_lines_ill_formed (lines : list string) (es : list edge)
    (vs : gset string) :
  ¬ Forall (λ line, count_commas line = 1) lines →
  ∃ msg, import_lines lines es vs = Raise (ValueError msg).
Proof.
  revert es vs. induction lines as [|line lines IH]; intros es vs Hbad.
  - destruct Hbad. constructor.
  - simpl. destruct (decide (count_commas line = 1)) as [Hline|Hline].
    + rewrite (unpack_line_one_comma _ Hline). unfold line_edge.
      apply IH. intros Hrest. apply Hbad. by constructor.
    + destruct (unpack_line_other _ Hline) as [msg ->]. by exists msg.
Qed.

Lemma import_formamentis_inv (w : World) (filepath : string)
    (fmn : FormamentisNetwork) :
  import_formamentis w (Some filepath) = Ok fmn →
  ∃ content,
    files w !! filepath = Some content ∧ well_formed content ∧
    fmn = mkFormamentisNetwork
            (Flat (line_edge <$> readlines content))
            (sorted (endpoint_union (line_edge <$> readlines content))).
Proof.
  unfold import_formamentis.
  destruct (files w !! filepath) as [content|] eqn:Hfile; [|done].
  destruct (decide (Forall (λ line, count_commas line = 1)
                           (readlines content))) as [Hwf|Hbad].
  - rewrite (import_lines_well_formed _ _ _ Hwf). simpl.
    rewrite (left_id_L ∅ (∪)). intros [= <-]. by exists content.
  - destruct (import_lines_ill_formed _ [] ∅ Hbad) as [msg ->]. done.
Qed.

(** X5: the import of a file that is there succeeds exactly when every line has
    one comma; any other file, one with an empty line for instance, makes
    it raise a ValueError. *)
Theorem import_formamentis_outcome (w : World) (filepath content : string) :
  files w !! filepath = Some content →
  ((∃ fmn, import_formamentis w (Some filepath) = Ok fmn) ↔
   well_formed content) ∧
  (¬ well_formed content →
   ∃ msg, import_formamentis w (Some filepath) = Raise (ValueError msg)).
Proof.
  intros Hfile. split; [split|].
  - intros [fmn (content' & Hfile' & Hwf & _)%import_formamentis_inv].
    congruence.
  - intros Hwf. unfold import_formamentis.
    rewrite Hfile, (import_lines_well_formed _ _ _ Hwf). eauto.
  - intros Hbad. unfold import_formamentis. rewrite Hfile.
    destruct (import_lines_ill_formed _ [] ∅ Hbad) as [msg ->]. eauto.
Qed.

Lemma import_formamentis_outcome_witness :
  files More.bad_lines_world !! "/home/user/bad.txt" = Some More.bad_lines ∧
  ¬ well_formed More.bad_lines ∧
  ∃ msg,
    import_formamentis More.bad_lines_world (Some "/home/user/bad.txt") =
    Raise (ValueError msg).
Proof.
  assert (Hfile : files More.bad_lines_world !! "/home/user/bad.txt" =
                  Some More.bad_lines) by reflexivity.
  assert (Hbad : ¬ well_formed More.bad_lines).
  { intros H. apply Forall_cons in H as [_ H].
    apply Forall_cons in H as [H _]. discriminate H. }
  split; [exact Hfile|]. split; [exact Hbad|].
  exact (proj2 (import_formamentis_outcome More.bad_lines_world
                  "/home/user/bad.txt" More.bad_lines Hfile) Hbad).
Defined.

(** *** The words of an imported network *)

Lemma readlines_unbroken_bounded (n : nat) (content : string) :
  (String.length content ≤ n)%nat → Forall More.unbroken (readlines content).
Proof.
  revert content. induction n as [|n IH]; intros [|c rest] Hlen;
    simpl in *; try (constructor || lia).
  assert (Forall More.unbroken (readlines rest)) as Hrest
    by (apply IH; lia).
  assert (More.unbroken (String LF EmptyString)) as Hnl
    by (exists EmptyString; auto).
  destruct (Ascii.eqb c LF) eqn:Hlf; [by constructor|].
  destruct (Ascii.eqb c CR) eqn:Hcr.
  - constructor; [done|]. destruct rest as [|c' rest']; [constructor|].
    destruct (Ascii.eqb c' LF); [|done]. apply IH. simpl in Hlen. lia.
  - destruct Hrest as [|line lines (body & Hline & H1 & H2) Hlines].
    + constructor; [|constructor]. exists (String c EmptyString).
      simpl. rewrite Hlf, Hcr. auto.
    + constructor; [|done]. exists (String c body). simpl.
      rewrite Hlf, Hcr, H1, H2. destruct Hline as [-> | ->]; auto.
Qed.

Lemma readlines_unbroken (content : string) :
  Forall More.unbroken (readlines content).
Proof. by apply (readlines_unbroken_bounded (String.length content)). Qed.

Lemma contains_strip (c : ascii) (s : string) :
  contains c s = false → contains c (strip s) = false.
Proof.
  destruct (strip_spec s) as (l & r & Hs & _). rewrite Hs at 1.
  rewrite !contains_app. intros H.
  apply orb_false_elim in H as [_ H]. by apply orb_false_elim in H as [H _].
Qed.

Lemma contains_before_comma (c : ascii) (s : string) :
  contains c s = false → contains c (before_comma s) = false.
Proof.
  induction s as [|c' s IH]; [done|]. simpl.
  intros [Hc Hs]%orb_false_elim.
  destruct (Ascii.eqb c' comma); [done|]. simpl. by rewrite Hc, IH.
Qed.

Lemma contains_after_comma (c : ascii) (s : string) :
  contains c s = false → contains c (after_comma s) = false.
Proof.
  induction s as [|c' s IH]; [done|]. simpl.
  intros [Hc Hs]%orb_false_elim.
  destruct (Ascii.eqb c' comma); [done|]. by apply IH.
Qed.

Lemma after_comma_no_comma (line : string) :
  count_commas line = 1 → contains comma (after_comma line) = false.
Proof.
  induction line as [|c line IH]; [done|]. simpl.
  destruct (Ascii.eqb c comma); simpl.
  - intros H. apply contains_count_commas. lia.
  - exact IH.
Qed.

Lemma line_edge_app (body tail : string) :
  count_commas body = 1 →
  before_comma (body ++ tail) = before_comma body ∧
  after_comma (body ++ tail) = after_comma body ++ tail.
Proof.
  intros H. destruct (comma_split_line body H) as [Hbody Hb].
  rewrite Hbody at 1 3. rewrite str_app_assoc, str_app_cons.
  by rewrite before_comma_app, after_comma_app.
Qed.

Lemma strip_app_space (s : string) (c : ascii) :
  isspace c = true → strip (s ++ String c EmptyString) = strip s.
Proof.
  intros Hc. unfold strip. induction s as [|c' s IH].
  - rewrite str_app_nil_l. simpl. by rewrite Hc.
  - rewrite str_app_cons. simpl. destruct (isspace c'); [exact IH|].
    by rewrite <- str_app_cons, rstrip_app_space.
Qed.

Lemma strip_one_line (s : string) :
  contains comma s = false → contains LF s = false → contains CR s = false →
  one_line_word (strip s).
Proof.
  intros H1 H2 H3. destruct (strip_spec s) as (_ & _ & _ & _ & _ & Ht).
  repeat split; try apply Ht; by apply contains_strip.
Qed.

Lemma line_edge_one_line (line : string) :
  More.unbroken line → count_commas line = 1 →
  one_line_word (line_edge line).1 ∧ one_line_word (line_edge line).2.
Proof.
  intros (body & Hline & Hlf & Hcr) Hone.
  assert (count_commas body = 1) as Hbody.
  { destruct Hline as [-> | ->]; [|done].
    rewrite count_commas_app in Hone. simpl in Hone. lia. }
  destruct (comma_split_line body Hbody) as [_ Hb].
  assert (line_edge line = line_edge body) as ->.
  { destruct Hline as [-> | ->]; [|done]. unfold line_edge.
    destruct (line_edge_app body (String LF EmptyString) Hbody) as [-> ->].
    by rewrite strip_app_space. }
  unfold line_edge. simpl. split; apply strip_one_line;
    auto using contains_before_comma, contains_after_comma,
               after_comma_no_comma.
Qed.

(** X6: every word of an imported network, in its edges and in its vertices,
    holds no comma and no line break and has no whitespace at either end;
    the network is flat. *)
Theorem import_formamentis_words (w : World) (filepath : string)
    (fmn : FormamentisNetwork) :
  import_formamentis w (Some filepath) = Ok fmn →
  (∃ es, edges fmn = Flat es ∧
         Forall (λ e : edge, one_line_word e.1 ∧ one_line_word e.2) es) ∧
  Forall one_line_word (vertices fmn).
Proof.
  intros (content & _ & Hwf & ->)%import_formamentis_inv. simpl.
  assert (Forall (λ e : edge, one_line_word e.1 ∧ one_line_word e.2)
                 (line_edge <$> readlines content)) as Hes.
  { apply Forall_fmap. unfold well_formed in Hwf.
    pose proof (readlines_unbroken content) as Hun.
    apply Forall_forall. intros line Hline.
    apply line_edge_one_line.
    - by apply (proj1 (Forall_forall _ _) Hun).
    - by apply (proj1 (Forall_forall _ _) Hwf). }
  split; [eauto|]. apply Forall_forall. intros v Hv.
  apply sorted_spec, FormamentisFacts.elem_of_endpoint_union in Hv
    as (e & He & Hv).
  apply (proj1 (Forall_forall _ _) Hes) in He as [H1 H2].
  by destruct Hv as [-> | ->].
Qed.

Lemma import_formamentis_words_witness :
  import_formamentis Samples.two_lines_world (Some "/home/user/net.txt") =
  Ok (mkFormamentisNetwork (Flat [("happy", "joy"); ("joy", "smile")])
        ["happy"; "joy"; "smile"]) ∧
  Forall one_line_word ["happy"; "joy"; "smile"].
Proof.
  assert (H : import_formamentis Samples.two_lines_world
                (Some "/home/user/net.txt") =
              Ok (mkFormamentisNetwork
                    (Flat [("happy", "joy"); ("joy", "smile")])
                    ["happy"; "joy"; "smile"]))
    by (vm_compute; reflexivity).
  split; [exact H|].
  exact (proj2 (import_formamentis_words Samples.two_lines_world
                  "/home/user/net.txt" _ H)).
Defined.

(** *** Export, then import *)

Lemma export_flat (w : World) (es : list edge) (vs kinds : list string)
    (filename path : option string) :
  export_formamentis w (mkFormamentisNetwork (Flat es) vs) kinds filename
                     path =
  (mkWorld (cwd w)
     (<[export_filepath w filename path := file_text es]> (files w)),
   Ok ()).
Proof.
  unfold export_formamentis. simpl.
  by rewrite write_pairs_flat, str_app_nil_l.
Qed.

Lemma import_written (w : World) (es : list edge) (filepath : string) :
  Forall (λ e : edge, one_line_word e.1 ∧ one_line_word e.2) es →
  files w !! filepath = Some (file_text es) →
  import_formamentis w (Some filepath) =
  Ok (mkFormamentisNetwork (Flat es) (sorted (endpoint_union es))).
Proof.
  intros Hes Hfile. unfold import_formamentis.
  rewrite Hfile, (readlines_file_text _ Hes).
  destruct (written_lines_well_formed es (one_line_words_plain _ Hes))
    as [Hwf Hback].
  rewrite (import_lines_well_formed _ _ _ Hwf), Hback. simpl.
  by rewrite (left_id_L ∅ (∪)).
Qed.

(** X7: a network that was imported goes through export and import
    unchanged, edges and vertices alike: the file that the export writes for
    it, under whatever name, is imported as the same network. *)
Theorem import_export_import (w w2 : World) (filepath : string)
    (fmn : FormamentisNetwork) (kinds : list string)
    (filename path : option string) :
  import_formamentis w (Some filepath) = Ok fmn →
  import_formamentis (export_formamentis w2 fmn kinds filename path).1
    (Some (export_filepath w2 filename path)) =
  Ok fmn.
Proof.
  intros Himp.
  destruct (import_formamentis_words _ _ _ Himp) as [(es & Hes & Hwords) _].
  apply import_formamentis_inv in Himp as (content & _ & _ & ->).
  simpl in Hes. injection Hes as <-. rewrite export_flat. cbn [fst snd].
  apply import_written; [done|].
  cbn [files]. apply lookup_insert_eq.
Qed.

Lemma import_export_import_witness :
  import_formamentis Samples.two_lines_world (Some "/home/user/net.txt") =
  Ok (mkFormamentisNetwork (Flat [("happy", "joy"); ("joy", "smile")])
        ["happy"; "joy"; "smile"]) ∧
  import_formamentis
    (export_formamentis Samples.empty_world
       (mkFormamentisNetwork (Flat [("happy", "joy"); ("joy", "smile")])
          ["happy"; "joy"; "smile"]) [] (Some "copy") None).1
    (Some (export_filepath Samples.empty_world (Some "copy") None)) =
  Ok (mkFormamentisNetwork (Flat [("happy", "joy"); ("joy", "smile")])
        ["happy"; "joy"; "smile"]).
Proof.
  assert (H : import_formamentis Samples.two_lines_world
                (Some "/home/user/net.txt") =
              Ok (mkFormamentisNetwork
                    (Flat [("happy", "joy"); ("joy", "smile")])
                    ["happy"; "joy"; "smile"]))
    by (vm_compute; reflexivity).
  split; [exact H|].
  exact (import_export_import Samples.two_lines_world
           Samples.empty_world "/home/user/net.txt" _ []
           (Some "copy") None H).
Defined.

(** X8: the round trip gives back the very network exactly when its vertex list
    is the sorted list of the endpoints of its edges: vertices without an
    edge, and any other order, are lost. *)
Theorem round_trip_exact_iff (w : World) (es : list edge)
    (vs kinds : list string) (filename path : option string) :
  Forall (λ e : edge, one_line_word e.1 ∧ one_line_word e.2) es →
  let fmnt := mkFormamentisNetwork (Flat es) vs in
  import_formamentis (export_formamentis w fmnt kinds filename path).1
    (Some (export_filepath w filename path)) = Ok fmnt ↔
  vs = sorted (endpoint_union es).
Proof.
  intros Hes fmnt. subst fmnt. rewrite export_flat. cbn [fst snd].
  rewrite (import_written _ es _ Hes) by apply lookup_insert_eq.
  split; [by intros [= <-]|by intros ->].
Qed.

Lemma round_trip_exact_iff_witness :
  Forall (λ e : edge, one_line_word e.1 ∧ one_line_word e.2)
         Samples.path_edges ∧
  (import_formamentis
     (export_formamentis Samples.empty_world Samples.flat_path [] None
        None).1
     (Some (export_filepath Samples.empty_world None None)) =
   Ok Samples.flat_path ↔
   ["a"; "b"; "c"; "d"] = sorted (endpoint_union Samples.path_edges)).
Proof.
  assert (Hes : Forall (λ e : edge, one_line_word e.1 ∧ one_line_word e.2)
                       Samples.path_edges)
    by (repeat constructor).
  split; [exact Hes|].
  exact (round_trip_exact_iff Samples.empty_world Samples.path_edges
           ["a"; "b"; "c"; "d"] [] None None Hes).
Defined.

(** *** The name of the written file *)

Lemma endswith_unfold (s suffix : string) :
  endswith s suffix =
  String.eqb s suffix ||
  match s with
  | EmptyString => false
  | String _ rest => endswith rest suffix
  end.
Proof. by destruct s. Qed.

Lemma endswith_refl (s : string) : endswith s s = true.
Proof. by rewrite endswith_unfold, String.eqb_refl. Qed.

Lemma endswith_app (prefix s suffix : string) :
  endswith s suffix = true → endswith (prefix ++ s) suffix = true.
Proof.
  intros H. induction prefix as [|c prefix IH]; [done|].
  rewrite str_app_cons, endswith_unfold, IH. apply orb_true_r.
Qed.

Lemma os_path_join_cases (path filename : string) :
  os_path_join path filename = filename ∨
  os_path_join path filename = path ++ filename ∨
  os_path_join path filename = path ++ "/" ++ filename.
Proof.
  unfold os_path_join.
  destruct (String.eqb path EmptyString || endswith path "/").
  - destruct filename as [|[[] [] [] [] [] [] [] []] rest]; auto.
  - destruct filename as [|[[] [] [] [] [] [] [] []] rest]; auto.
Qed.

Lemma os_path_join_endswith (path filename suffix : string) :
  endswith filename suffix = true →
  endswith (os_path_join path filename) suffix = true.
Proof.
  intros H. destruct (os_path_join_cases path filename) as [-> | [-> | ->]];
    auto using endswith_app.
Qed.

(** X9: the file is always written under a name that ends in ".txt": a name
    given without the suffix gets it, and a name given with it is the same
    file. *)
Theorem export_filepath_txt (w : World) (filename path : option string) :
  endswith (export_filepath w filename path) ".txt" = true ∧
  ∀ name,
    export_filepath w (Some name) path =
    export_filepath w
      (Some (if endswith name ".txt" then name else name ++ ".txt")) path.
Proof.
  split.
  - unfold export_filepath. apply os_path_join_endswith.
    destruct filename as [name|]; [|reflexivity].
    destruct (endswith name ".txt") eqn:Hname; [done|].
    apply endswith_app, endswith_refl.
  - intros name. unfold export_filepath.
    destruct (endswith name ".txt") eqn:Hname.
    + by rewrite Hname.
    + by rewrite (endswith_app name ".txt" ".txt" (endswith_refl _)).
Qed.

(** *** Export of a multiplex network *)

Lemma write_pairs_keys (ks : list string) (content : string) :
  (Forall (λ k, (2 ≤ String.length k)%nat) ks →
   (write_pairs key_line ks content).2 = Ok ()) ∧
  (¬ Forall (λ k, (2 ≤ String.length k)%nat) ks →
   (write_pairs key_line ks content).2 = Raise IndexError).
Proof.
  revert content. induction ks as [|k ks IH]; intros content.
  - split; [done|]. intros Hn. destruct Hn. constructor.
  - destruct k as [|c0 [|c1 k]]; simpl.
    + split; [|done]. intros [H _]%Forall_cons. simpl in H. lia.
    + split; [|done]. intros [H _]%Forall_cons. simpl in H. lia.
    + destruct (IH (content ++ format_pair (String c0 EmptyString)
                                           (String c1 EmptyString)))
        as [IH1 IH2].
      split.
      * intros [_ H]%Forall_cons. by apply IH1.
      * intros Hn. apply IH2. intros H. apply Hn.
        constructor; [simpl; lia|done].
Qed.

Lemma write_pairs_keys_text (ks : list string) (content : string) :
  Forall (λ k, (2 ≤ String.length k)%nat) ks →
  (write_pairs key_line ks content).1 =
  content ++ file_text (More.initials <$> ks).
Proof.
  intros Hks. revert content.
  induction Hks as [|k ks Hk _ IH]; intros content.
  - simpl. by rewrite str_app_nil_r.
  - destruct k as [|c0 [|c1 k]]; simpl in Hk; try lia.
    simpl. by rewrite IH, str_app_assoc.
Qed.

(** X11: the export of a multiplex network writes none of its edges: the
    loop runs over the keys of the dict, so when every kind has a name of
    two characters or more the call returns and the file holds one line per
    kind, in the order of the keys, with the first two characters of the
    name as the two words; when some kind has a shorter name the call
    raises an IndexError. *)
Theorem export_multiplex_writes_kind_names (w : World)
    (m : gmap string (list edge)) (vs kinds : list string)
    (filename path : option string) :
  let written :=
    export_formamentis w (mkFormamentisNetwork (Multiplex m) vs) kinds
                       filename path in
  if decide (Forall (λ k, (2 ≤ String.length k)%nat) kinds)
  then written.2 = Ok () ∧
       files written.1 !! export_filepath w filename path =
       Some (file_text (More.initials <$> kinds))
  else written.2 = Raise IndexError.
Proof.
  intros written. subst written. unfold export_formamentis. cbn [edges].
  destruct (write_pairs_keys kinds EmptyString) as [H1 H2].
  pose proof (write_pairs_keys_text kinds EmptyString) as H3.
  destruct (write_pairs key_line kinds EmptyString) as [content outcome].
  cbn [fst snd files] in *.
  destruct (decide _) as [H|H]; [|by apply H2].
  split; [by apply H1|]. by rewrite lookup_insert_eq, (H3 H).
Qed.

(** Two kinds with ordinary names: the file holds the first two letters of
    each name and no edge; a kind named by one letter stops the export. *)
Example export_two_kinds :
  files
    (export_formamentis Samples.empty_world Samples.two_kinds
       More.two_kinds_keys None None).1
  !! export_filepath Samples.empty_world None None =
  Some (file_text [("s", "y"); ("s", "y")]) ∧
  (export_formamentis Samples.empty_world More.short_kind ["s"] None
     None).2 = Raise IndexError.
Proof. split; vm_compute; reflexivity. Qed.

End EdgeListIOFacts.

(** * Properties of the scorer *)

Module ScorerFacts.
Import Formamentis Scorer.

Section Facts.
Context `{C : Collaborators}.

(** *** The attributes a method leaves alone *)

Lemma with_lookup_same (self : EmoScores) :
  with_lookup self (_lookup self) = self.
Proof. by destruct self. Qed.

Lemma with_baseline_same (self : EmoScores) :
  with_baseline self (_baseline self) = self.
Proof. by destruct self. Qed.

Lemma resolve_baseline_truthy (self : EmoScores)
    (baseline : baseline_arg Row) :
  truthy baseline = true →
  resolve_baseline self baseline =
  match More.per_call_baseline self baseline with
  | Ok made => Ok (self, made)
  | Raise e => Raise e
  end.
Proof.
  intros H. unfold resolve_baseline, More.per_call_baseline.
  rewrite H. simpl. by destruct (_make_baseline _ _ _ _ _ _).
Qed.

Lemma resolve_baseline_none (self : EmoScores) :
  resolve_baseline self BNone =
  if baseline_truthy (_baseline self) then Ok (self, _baseline self)
  else match More.per_call_baseline self BNone with
       | Ok made => Ok (with_baseline self made, made)
       | Raise e => Raise e
       end.
Proof.
  unfold resolve_baseline, More.per_call_baseline. simpl.
  destruct (baseline_truthy (_baseline self)); simpl; [done|].
  by destruct (_make_baseline _ _ _ _ _ _).
Qed.

Lemma resolve_baseline_falsy (self : EmoScores)
    (baseline : baseline_arg Row) :
  truthy baseline = false →
  resolve_baseline self baseline = resolve_baseline self BNone.
Proof. intros H. unfold resolve_baseline. by rewrite H. Qed.

(** The branch assigns [_baseline] at most, and nothing when it raises. *)
Lemma resolve_baseline_assigns (self self' : EmoScores)
    (baseline : baseline_arg Row) (used : Baseline) :
  resolve_baseline self baseline = Ok (self', used) →
  self' = with_baseline self (_baseline self').
Proof.
  destruct (truthy baseline) eqn:Hb.
  - rewrite (resolve_baseline_truthy _ _ Hb).
    destruct (More.per_call_baseline self baseline); [|done].
    intros [= <- _]. by rewrite with_baseline_same.
  - rewrite (resolve_baseline_falsy _ _ Hb), resolve_baseline_none.
    destruct (baseline_truthy (_baseline self)).
    + intros [= <- _]. by rewrite with_baseline_same.
    + destruct (More.per_call_baseline self BNone); [|done].
      by intros [= <- _].
Qed.

Lemma resolve_baseline_attributes (self self' : EmoScores)
    (baseline : baseline_arg Row) (used : Baseline) :
  resolve_baseline self baseline = Ok (self', used) →
  emotionslist self' = emotionslist self ∧
  _lookup self' = _lookup self ∧
  _emotion_lexicon self' = _emotion_lexicon self ∧
  language self' = language self ∧
  _emojis_dict self' = _emojis_dict self ∧
  _idiomatic_tokens self' = _idiomatic_tokens self ∧
  current_model self' = current_model self.
Proof. intros ->%resolve_baseline_assigns. done. Qed.

(** A call of [zscores] assigns [_baseline] and [_lookup] at most. *)
Lemma zscores_assigns (self : EmoScores) o baseline n_samples convert_emojis
    rng :
  ∃ b l,
    (zscores self o baseline n_samples convert_emojis rng).1.2 =
    with_lookup (with_baseline self b) l.
Proof.
  unfold zscores.
  destruct (resolve_baseline self baseline) as [[self' used]|e] eqn:Hr.
  - apply resolve_baseline_assigns in Hr.
    destruct (get_emotionslist self') as [el|e]; simpl.
    + destruct (_zscores _ _ _ _ _ _ _ _ _ _ _ _) as [[z l] rng']. simpl.
      exists (_baseline self'), l. by rewrite <- Hr.
    + exists (_baseline self'), (_lookup self').
      by rewrite <- Hr, with_lookup_same.
  - simpl. exists (_baseline self), (_lookup self).
    by rewrite with_baseline_same, with_lookup_same.
Qed.

Lemma call_emotionslist (self self' : EmoScores) :
  call self self' → emotionslist self' = emotionslist self.
Proof.
  destruct 1 as [self m|self b|self o b ns ce rng].
  - unfold set_stemming_lemmatization.
    by destruct (_load_dictionary _ _).
  - unfold set_baseline. by destruct (_make_baseline _ _ _ _ _ _).
  - by destruct (zscores_assigns self o b ns ce rng) as (b' & l' & ->).
Qed.

(** No method call assigns [emotionslist]. *)
Lemma calls_emotionslist (self self' : EmoScores) :
  calls self self' → emotionslist self' = emotionslist self.
Proof.
  induction 1 as [|s1 s2 s3 Hcall _ IH]; [done|].
  rewrite IH. by apply call_emotionslist.
Qed.

(** The attributes as the constructor leaves them. *)
Lemma init_emotionslist (language0 : string)
    (spacy_model : option SpacyModel) (emotion_model : string)
    (built : EmoScores) :
  init language0 spacy_model emotion_model = Ok built →
  emotionslist built =
  (if String.eqb emotion_model "plutchik" then Some plutchik else None).
Proof.
  unfold init. destruct (_load_dictionary _ _); [|done]. simpl.
  destruct (_make_baseline _ _ _ _ _ _); [|done]. simpl.
  by intros [= <-].
Qed.

(** *** What a call of [zscores] does *)

(** With the attribute present the call reaches [_zscores], unless the
    builder raised. *)
Lemma zscores_unfold (self : EmoScores) o baseline n_samples convert_emojis
    rng emotions :
  emotionslist self = Some emotions →
  zscores self o baseline n_samples convert_emojis rng =
  match resolve_baseline self baseline with
  | Ok (self', used) =>
      let '(z, lookup, rng') :=
        _zscores o used n_samples (_emotion_lexicon self') (language self')
                 (current_model self) emotions (_lookup self')
                 (_emojis_dict self') convert_emojis
                 (_idiomatic_tokens self') rng in
      (Ok z, with_lookup self' lookup, rng')
  | Raise e => (Raise e, self, rng)
  end.
Proof.
  intros Hel. unfold zscores.
  destruct (resolve_baseline self baseline) as [[self' used]|e] eqn:Hr;
    [|done].
  apply resolve_baseline_attributes in Hr as (He & _).
  unfold get_emotionslist. by rewrite He, Hel.
Qed.

(** A size the cache holds is answered from the cache, whatever the baseline
    of the call. *)
Lemma zscores_cache_hit (self : EmoScores) o baseline n_samples
    convert_emojis rng emotions stats :
  emotionslist self = Some emotions →
  _lookup self !! sample_size self o convert_emojis = Some stats →
  zscores self o baseline n_samples convert_emojis rng =
  match resolve_baseline self baseline with
  | Ok (self', _) =>
      (Ok (z_vector emotions (observed self o emotions convert_emojis)
                    stats), self', rng)
  | Raise e => (Raise e, self, rng)
  end.
Proof.
  intros Hel Hhit. rewrite (zscores_unfold _ _ _ _ _ _ _ Hel).
  destruct (resolve_baseline self baseline) as [[self' used]|e] eqn:Hr;
    [|done].
  apply resolve_baseline_attributes in Hr as (_ & Hl & Hx & Hg & Hj & Hi & _).
  unfold _zscores. rewrite Hx, Hg, Hj, Hi, Hl.
  fold (sample_size self o convert_emojis). rewrite Hhit.
  by rewrite <- Hl, with_lookup_same.
Qed.

(** A size the cache lacks is resampled from the baseline of the call and
    stored. *)
Lemma zscores_cache_miss (self : EmoScores) o baseline n_samples
    convert_emojis rng emotions :
  emotionslist self = Some emotions →
  _lookup self !! sample_size self o convert_emojis = None →
  zscores self o baseline n_samples convert_emojis rng =
  match resolve_baseline self baseline with
  | Ok (self', used) =>
      let n := sample_size self o convert_emojis in
      let '(stats, rng') :=
        null_statistics rng used n n_samples (_emotion_lexicon self)
                        emotions in
      (Ok (z_vector emotions (observed self o emotions convert_emojis)
                    stats),
       with_lookup self' (<[n := stats]> (_lookup self)), rng')
  | Raise e => (Raise e, self, rng)
  end.
Proof.
  intros Hel Hmiss. rewrite (zscores_unfold _ _ _ _ _ _ _ Hel).
  destruct (resolve_baseline self baseline) as [[self' used]|e] eqn:Hr;
    [|done].
  apply resolve_baseline_attributes in Hr as (_ & Hl & Hx & Hg & Hj & Hi & _).
  unfold _zscores. rewrite Hx, Hg, Hj, Hi, Hl.
  fold (sample_size self o convert_emojis). rewrite Hmiss. simpl.
  by destruct (null_statistics _ _ _ _ _ _).
Qed.

(** The mode setter keeps baseline and cache, whether it returns or
    raises. *)
Lemma set_stemming_lemmatization_keeps (self : EmoScores)
    (stem_or_lem : string) :
  let self' := (set_stemming_lemmatization self stem_or_lem).2 in
  _baseline self' = _baseline self ∧ _lookup self' = _lookup self ∧
  emotionslist self' = emotionslist self.
Proof.
  unfold set_stemming_lemmatization. by destruct (_load_dictionary _ _).
Qed.

(** C1 on the code: an entry of the cache outlives both operations.
    [set_stemming_lemmatization] keeps the baseline and the cache, and the
    next call of [zscores] answers a cached size from the old entry.  A call
    of [zscores] with a per-call baseline whose builder returns answers a
    cached size from the entry that is there, and leaves the instance as it
    was; when the builder raises, so does the call. *)
Theorem stale_entry_reused (self : EmoScores) (o : obj)
    (baseline arg : baseline_arg Row) (stem_or_lem : string)
    (n_samples : nat) (convert_emojis : bool) (rng : Rng)
    (emotions : list string) (stats stats' : Stats) :
  emotionslist self = Some emotions →
  truthy baseline = true →
  _lookup self !! sample_size self o convert_emojis = Some stats →
  _lookup self !!
    sample_size (set_stemming_lemmatization self stem_or_lem).2 o
                convert_emojis = Some stats' →
  zscores self o baseline n_samples convert_emojis rng =
  match More.per_call_baseline self baseline with
  | Ok _ =>
      (Ok (z_vector emotions (observed self o emotions convert_emojis)
                    stats), self, rng)
  | Raise e => (Raise e, self, rng)
  end ∧
  let self' := (set_stemming_lemmatization self stem_or_lem).2 in
  _baseline self' = _baseline self ∧
  _lookup self' = _lookup self ∧
  zscores self' o arg n_samples convert_emojis rng =
  match resolve_baseline self' arg with
  | Ok (self'', _) =>
      (Ok (z_vector emotions (observed self' o emotions convert_emojis)
                    stats'), self'', rng)
  | Raise e => (Raise e, self', rng)
  end.
Proof.
  intros Hel Hb Hhit Hhit'. split.
  - rewrite (zscores_cache_hit _ _ _ _ _ _ _ _ Hel Hhit).
    rewrite (resolve_baseline_truthy _ _ Hb).
    by destruct (More.per_call_baseline self baseline).
  - intros self'. subst self'.
    destruct (set_stemming_lemmatization_keeps self stem_or_lem)
      as (Hbase & Hl & He).
    split; [done|]. split; [done|].
    apply zscores_cache_hit; [by rewrite He|by rewrite Hl].
Qed.

(** When the builder raises, [set_baseline] raises and the instance is as it
    was. *)
Lemma set_baseline_raises (self : EmoScores) (baseline : baseline_arg Row)
    (e : exn) :
  More.setter_baseline self baseline = Raise e →
  set_baseline self baseline = (Raise e, self).
Proof.
  unfold More.setter_baseline, set_baseline. by intros ->.
Qed.

(** C2, amended: when the builder returns a baseline for the argument,
    [set_baseline] stores it and leaves the cache empty, so the next call of
    [zscores] resamples the statistics from the baseline of that call and
    stores them; nothing the cache held before reaches the result. *)
Theorem set_baseline_clears_lookup (self : EmoScores)
    (baseline arg : baseline_arg Row) (o : obj) (n_samples : nat)
    (convert_emojis : bool) (rng : Rng) (emotions : list string)
    (made : Baseline) :
  emotionslist self = Some emotions →
  More.setter_baseline self baseline = Ok made →
  (set_baseline self baseline).1 = Ok () ∧
  let cleared := (set_baseline self baseline).2 in
  _baseline cleared = made ∧
  _lookup cleared = ∅ ∧
  zscores cleared o arg n_samples convert_emojis rng =
  match resolve_baseline cleared arg with
  | Ok (self', used) =>
      let n := sample_size cleared o convert_emojis in
      let '(stats, rng') :=
        null_statistics rng used n n_samples (_emotion_lexicon cleared)
                        emotions in
      (Ok (z_vector emotions (observed cleared o emotions convert_emojis)
                    stats),
       with_lookup self' {[n := stats]}, rng')
  | Raise e => (Raise e, cleared, rng)
  end ∧
  ∀ lookup,
    zscores (set_baseline (with_lookup self lookup) baseline).2 o arg
            n_samples convert_emojis rng =
    zscores cleared o arg n_samples convert_emojis rng.
Proof.
  intros Hel Hmade.
  assert (∀ lookup,
            set_baseline (with_lookup self lookup) baseline =
            (Ok (), with_lookup (with_baseline self made) ∅)) as Hset.
  { intros lookup. unfold set_baseline.
    unfold More.setter_baseline in Hmade. simpl. by rewrite Hmade. }
  pose proof (Hset (_lookup self)) as Hself.
  rewrite with_lookup_same in Hself. rewrite Hself. cbn [fst snd].
  set (cleared := with_lookup (with_baseline self made) ∅).
  split; [done|]. split; [done|]. split; [done|].
  split; [|intros lookup; by rewrite Hset].
  assert (emotionslist cleared = Some emotions) as Hel' by done.
  rewrite (zscores_cache_miss _ _ _ _ _ _ _ Hel') by done.
  destruct (resolve_baseline cleared arg) as [[self' used]|e]; [|done].
  simpl.
  destruct (null_statistics rng used _ n_samples _ emotions)
    as [stats rng'].
  by rewrite insert_empty.
Qed.

(** C7: an instance built with the model "plutchik" hands the eight
    Plutchik emotions, in their fixed order, to [_get_emotions] and to
    [_zscores], also after any number of method calls; a call of [zscores]
    whose builder raises does not get as far as [_zscores]. *)
Theorem plutchik_emotions_passed (language0 : string)
    (spacy_model : option SpacyModel) (built self : EmoScores) :
  init language0 spacy_model "plutchik" = Ok built →
  calls built self →
  plutchik =
  ["anger"; "trust"; "surprise"; "disgust"; "joy"; "sadness"; "fear";
   "anticipation"] ∧
  emotionslist self = Some plutchik ∧
  (∀ o normalization_strategy return_words convert_emojis,
     emotions self o normalization_strategy return_words convert_emojis =
     Ok (_get_emotions o normalization_strategy (_emotion_lexicon self)
           (language self) (current_model self) plutchik return_words
           (_emojis_dict self) convert_emojis (_idiomatic_tokens self))) ∧
  (∀ o baseline n_samples convert_emojis rng,
     zscores self o baseline n_samples convert_emojis rng =
     match resolve_baseline self baseline with
     | Ok (self', used) =>
         let '(z, lookup, rng') :=
           _zscores o used n_samples (_emotion_lexicon self')
                    (language self') (current_model self) plutchik
                    (_lookup self') (_emojis_dict self') convert_emojis
                    (_idiomatic_tokens self') rng in
         (Ok z, with_lookup self' lookup, rng')
     | Raise e => (Raise e, self, rng)
     end).
Proof.
  intros Hinit%init_emotionslist Hcalls%calls_emotionslist.
  rewrite Hinit in Hcalls. simpl in Hcalls.
  split; [done|]. split; [done|]. split.
  - intros. unfold emotions, get_emotionslist. by rewrite Hcalls.
  - intros. by apply zscores_unfold.
Qed.

(** C8, amended: any other emotion model is accepted by the constructor
    exactly as "plutchik" is, and gives the same instance without the
    attributes [emotionslist] and [_emotion_model]; no method call adds
    them; every call of [emotions] raises the attribute error, and so does
    every call of [zscores] whose baseline is resolved, while one whose
    builder raises fails with the error of the builder: no call returns. *)
Theorem other_model_attribute_error (language0 : string)
    (spacy_model : option SpacyModel) (emotion_model : string)
    (built self : EmoScores) :
  emotion_model ≠ "plutchik" →
  init language0 spacy_model emotion_model = Ok built →
  calls built self →
  init language0 spacy_model emotion_model =
  match init language0 spacy_model "plutchik" with
  | Ok known =>
      Ok (mkEmoScores (language known) (_emotion_lexicon known)
            (_tagger known) (_stemmer known) (_stem_or_lem known)
            (_emojis_dict known) (_idiomatic_tokens known)
            (_antonyms known) (_baseline known) (_lookup known) None None)
  | Raise e => Raise e
  end ∧
  emotionslist self = None ∧
  (∀ o normalization_strategy return_words convert_emojis,
     emotions self o normalization_strategy return_words convert_emojis =
     Raise (AttributeError "emotionslist")) ∧
  (∀ o baseline n_samples convert_emojis rng,
     (zscores self o baseline n_samples convert_emojis rng).1.1 =
     match resolve_baseline self baseline with
     | Ok _ => Raise (AttributeError "emotionslist")
     | Raise e => Raise e
     end).
Proof.
  intros Hne%String.eqb_neq Hinit Hcalls%calls_emotionslist.
  rewrite (init_emotionslist _ _ _ _ Hinit), Hne in Hcalls.
  split; [|split; [done|split]].
  - unfold init. rewrite Hne.
    destruct (_load_dictionary _ _); [|done]. simpl.
    by destruct (_make_baseline _ _ _ _ _ _).
  - intros. unfold emotions, get_emotionslist. by rewrite Hcalls.
  - intros. unfold zscores.
    destruct (resolve_baseline self baseline) as [[self' used]|e] eqn:Hr;
      [|done].
    apply resolve_baseline_attributes in Hr as (He & _).
    unfold get_emotionslist. by rewrite He, Hcalls.
Qed.

(** C10: a falsy baseline argument is not looked at any further: the call
    does what a call with [None] does, and what it hands to [_zscores] is
    the baseline the instance holds, which is the stored one or, when that
    is falsy too, the one just built from the lexicon and stored; only a
    truthy argument goes to the builder, and then its baseline is handed to
    [_zscores] and the instance keeps its own. *)
Theorem zscores_falsy_baseline (self : EmoScores) (o : obj)
    (baseline : baseline_arg Row) (n_samples : nat) (convert_emojis : bool)
    (rng : Rng) (emotions : list string) :
  emotionslist self = Some emotions →
  let scored (self' : EmoScores) (used : Baseline) :=
    let '(z, lookup, rng') :=
      _zscores o used n_samples (_emotion_lexicon self) (language self)
               (current_model self) emotions (_lookup self)
               (_emojis_dict self) convert_emojis (_idiomatic_tokens self)
               rng in
    (Ok z, with_lookup self' lookup, rng') in
  if truthy baseline
  then
    baseline ≠ BNone ∧ baseline ≠ BText EmptyString ∧ baseline ≠ BDist [] ∧
    zscores self o baseline n_samples convert_emojis rng =
    match More.per_call_baseline self baseline with
    | Ok made => scored self made
    | Raise e => (Raise e, self, rng)
    end
  else
    (baseline = BNone ∨ baseline = BText EmptyString ∨ baseline = BDist []) ∧
    zscores self o baseline n_samples convert_emojis rng =
    zscores self o BNone n_samples convert_emojis rng ∧
    zscores self o baseline n_samples convert_emojis rng =
    (if baseline_truthy (_baseline self)
     then scored self (_baseline self)
     else match More.per_call_baseline self BNone with
          | Ok made => scored (with_baseline self made) made
          | Raise e => (Raise e, self, rng)
          end).
Proof.
  intros Hel scored. subst scored.
  rewrite !(zscores_unfold _ _ _ _ _ _ _ Hel).
  destruct (truthy baseline) eqn:Hb.
  - repeat split; try (intros ->; discriminate).
    rewrite (resolve_baseline_truthy _ _ Hb).
    by destruct (More.per_call_baseline self baseline).
  - split.
    { destruct baseline as [|text|[|row rows]]; simpl in Hb; auto.
      - right; left. f_equal.
        apply negb_false_iff in Hb. by apply String.eqb_eq in Hb.
      - discriminate. }
    rewrite (resolve_baseline_falsy _ _ Hb). split; [done|].
    rewrite resolve_baseline_none.
    destruct (baseline_truthy (_baseline self)); [done|].
    by destruct (More.per_call_baseline self BNone).
Qed.

End Facts.

(** *** The theorems at sample values *)

Lemma stale_entry_reused_witness :
  @emotionslist Samples.toy Samples.toy_scorer_used = Some plutchik ∧
  truthy (BText "corpus" : baseline_arg (list nat)) = true ∧
  @zscores Samples.toy Samples.toy_scorer_used (Text "xyz") (BText "corpus")
           300 true 1 =
  (Ok ("lexicon", 3), Samples.toy_scorer_used, 1) ∧
  @zscores Samples.toy
    (@set_stemming_lemmatization Samples.toy Samples.toy_scorer_used
       "stemming").2
    (Text "xyz") BNone 300 true 1 =
  (Ok ("lexicon", 3),
   (@set_stemming_lemmatization Samples.toy Samples.toy_scorer_used
      "stemming").2, 1).
Proof.
  assert (H1 : @emotionslist Samples.toy Samples.toy_scorer_used =
               Some plutchik) by reflexivity.
  assert (H2 : truthy (BText "corpus" : baseline_arg (list nat)) = true)
    by reflexivity.
  assert (H3 : @_lookup Samples.toy Samples.toy_scorer_used !!
               @sample_size Samples.toy Samples.toy_scorer_used (Text "xyz")
                 true = Some ("lexicon", 3)) by reflexivity.
  assert (H4 : @_lookup Samples.toy Samples.toy_scorer_used !!
               @sample_size Samples.toy
                 (@set_stemming_lemmatization Samples.toy
                    Samples.toy_scorer_used "stemming").2
                 (Text "xyz") true = Some ("lexicon", 3)) by reflexivity.
  split; [exact H1|]. split; [exact H2|].
  destruct (@stale_entry_reused Samples.toy Samples.toy_scorer_used
              (Text "xyz") (BText "corpus") BNone "stemming" 300 true 1
              plutchik ("lexicon", 3) ("lexicon", 3) H1 H2 H3 H4)
    as (Hz & _ & _ & Hz').
  split; [exact Hz|exact Hz'].
Defined.

(** The same scorer before it cached the size gives the statistics of the
    baseline of the call. *)
Example fresh_entry_per_call_baseline :
  (@zscores Samples.toy Samples.toy_scorer (Text "xyz") (BText "corpus")
            300 true 0).1.1 = Ok ("corpus", 3).
Proof. reflexivity. Qed.

Lemma set_baseline_clears_lookup_witness :
  @emotionslist Samples.toy Samples.toy_scorer_used = Some plutchik ∧
  @More.setter_baseline Samples.toy Samples.toy_scorer_used BNone =
  Ok "lexicon" ∧
  @_lookup Samples.toy Samples.toy_scorer_used !! 3 = Some ("lexicon", 3) ∧
  @_lookup Samples.toy
    (@set_baseline Samples.toy Samples.toy_scorer_used BNone).2 = ∅ ∧
  @zscores Samples.toy
    (@set_baseline Samples.toy Samples.toy_scorer_used BNone).2
    (Text "xyz") BNone 300 true 1 =
  (Ok ("lexicon", 3),
   @with_lookup Samples.toy Samples.toy_scorer {[3 := ("lexicon", 3)]}, 2).
Proof.
  assert (H1 : @emotionslist Samples.toy Samples.toy_scorer_used =
               Some plutchik) by reflexivity.
  assert (H2 : @More.setter_baseline Samples.toy Samples.toy_scorer_used
                 BNone = Ok "lexicon") by reflexivity.
  split; [exact H1|]. split; [exact H2|]. split; [reflexivity|].
  destruct (@set_baseline_clears_lookup Samples.toy Samples.toy_scorer_used
              BNone BNone (Text "xyz") 300 true 1 plutchik "lexicon" H1 H2)
    as (_ & _ & Hl & Hz & _).
  split; [exact Hl|]. rewrite Hz. reflexivity.
Defined.

(** C2 as stated fails: with a builder that raises on a text,
    [set_baseline] raises before it assigns, the cache keeps its entry and
    the next call of [zscores] for that size answers from it. *)
Lemma set_baseline_raising_counterexample :
  @_lookup More.strict More.strict_scorer_used !! 3 = Some ("lexicon", 3) ∧
  @set_baseline More.strict More.strict_scorer_used (BText "corpus") =
  (Raise (TypeError "baseline"), More.strict_scorer_used) ∧
  @_lookup More.strict
    (@set_baseline More.strict More.strict_scorer_used (BText "corpus")).2
  ≠ ∅ ∧
  @zscores More.strict
    (@set_baseline More.strict More.strict_scorer_used (BText "corpus")).2
    (Text "xyz") BNone 300 true 1 =
  (Ok ("lexicon", 3), More.strict_scorer_used, 1).
Proof.
  split; [reflexivity|]. split; [reflexivity|]. split; [|reflexivity].
  intros H.
  assert (@_lookup More.strict
            (@set_baseline More.strict More.strict_scorer_used
               (BText "corpus")).2 !! 3 = Some ("lexicon", 3)) as H3
    by reflexivity.
  rewrite H in H3. discriminate H3.
Qed.

Lemma plutchik_emotions_passed_witness :
  @init Samples.toy "english" None "plutchik" = Ok Samples.toy_scorer ∧
  @calls Samples.toy Samples.toy_scorer Samples.toy_scorer_used ∧
  @emotionslist Samples.toy Samples.toy_scorer_used =
  Some ["anger"; "trust"; "surprise"; "disgust"; "joy"; "sadness"; "fear";
        "anticipation"].
Proof.
  assert (H0 : @init Samples.toy "english" None "plutchik" =
               Ok Samples.toy_scorer) by reflexivity.
  assert (H : @calls Samples.toy Samples.toy_scorer Samples.toy_scorer_used).
  { eapply rtc_l; [|apply rtc_refl].
    exact (@call_zscores Samples.toy Samples.toy_scorer (Text "abc") BNone
             300 true 0). }
  split; [exact H0|]. split; [exact H|].
  destruct (@plutchik_emotions_passed Samples.toy "english" None
              Samples.toy_scorer Samples.toy_scorer_used H0 H)
    as (Hp & He & _).
  rewrite He. f_equal.
Defined.

Lemma other_model_attribute_error_witness :
  "ekman" ≠ "plutchik" ∧
  @init Samples.toy "english" None "ekman" = Ok Samples.toy_scorer_other ∧
  @calls Samples.toy Samples.toy_scorer_other Samples.toy_scorer_other ∧
  @emotions Samples.toy Samples.toy_scorer_other (Text "abc") "none" false
            true = Raise (AttributeError "emotionslist") ∧
  (@zscores Samples.toy Samples.toy_scorer_other (Text "abc") BNone 300 true
            0).1.1 = Raise (AttributeError "emotionslist").
Proof.
  assert (H1 : "ekman" ≠ "plutchik") by discriminate.
  assert (H0 : @init Samples.toy "english" None "ekman" =
               Ok Samples.toy_scorer_other) by reflexivity.
  assert (H2 : @calls Samples.toy Samples.toy_scorer_other
                 Samples.toy_scorer_other) by apply rtc_refl.
  split; [exact H1|]. split; [exact H0|]. split; [exact H2|].
  destruct (@other_model_attribute_error Samples.toy "english" None "ekman"
              Samples.toy_scorer_other Samples.toy_scorer_other H1 H0 H2)
    as (_ & _ & He & Hz).
  split; [apply He|]. rewrite Hz. reflexivity.
Defined.

(** C8 as stated fails: with a builder that raises on a text, a call of
    [zscores] with a text as its baseline fails in the builder, before
    [emotionslist] is read, and the error is the builder's. *)
Lemma other_model_builder_error_counterexample :
  "ekman" ≠ "plutchik" ∧
  @init More.strict "english" None "ekman" = Ok More.strict_scorer_other ∧
  @emotionslist More.strict More.strict_scorer_other = None ∧
  (@zscores More.strict More.strict_scorer_other (Text "abc")
            (BText "corpus") 300 true 0).1.1 = Raise (TypeError "baseline") ∧
  (@zscores More.strict More.strict_scorer_other (Text "abc")
            (BText "corpus") 300 true 0).1.1 ≠
  Raise (AttributeError "emotionslist").
Proof.
  split; [discriminate|]. split; [reflexivity|]. split; [reflexivity|].
  split; [reflexivity|]. discriminate.
Qed.

Lemma zscores_falsy_baseline_witness :
  @emotionslist Samples.toy Samples.toy_scorer = Some plutchik ∧
  @zscores Samples.toy Samples.toy_scorer (Text "abc") (BText EmptyString)
           300 true 0 =
  @zscores Samples.toy Samples.toy_scorer (Text "abc") BNone 300 true 0.
Proof.
  assert (H1 : @emotionslist Samples.toy Samples.toy_scorer = Some plutchik)
    by reflexivity.
  split; [exact H1|].
  exact (proj1 (proj2 (@zscores_falsy_baseline Samples.toy
                         Samples.toy_scorer (Text "abc")
                         (BText EmptyString) 300 true 0 plutchik H1))).
Defined.

(** *** What the calls keep *)

Section Invariants.
Context `{C : Collaborators}.

Lemma settled_init language0 spacy_model emotion_model (built : EmoScores) :
  init language0 spacy_model emotion_model = Ok built →
  More.settled language0 built built.
Proof.
  unfold init.
  destruct (_load_dictionary language0 None) as [lexicon|] eqn:Hlex;
    [|done]. simpl.
  destruct (_make_baseline _ _ _ _ _ _); [|done]. simpl.
  intros [= <-]. unfold More.settled. simpl. repeat split; auto.
  - discriminate.
  - by exists None.
Qed.

Lemma settled_call language0 (built self self' : EmoScores) :
  call self self' →
  More.settled language0 built self → More.settled language0 built self'.
Proof.
  intros Hcall Hself.
  pose proof Hself as
    (Hl & Ht & He & Ha & Hs & Hm & mode & Hmode & Hlex & Hid).
  destruct Hcall as [self m|self b|self o b ns ce rng].
  - unfold set_stemming_lemmatization. rewrite Hl.
    destruct (_load_dictionary language0 (Some m)) as [lexicon|] eqn:Hload;
      [|done].
    unfold More.settled. simpl. repeat split; auto.
    + destruct (String.eqb m "stemming" && is_None (_stemmer self)); auto.
    + intros ->. simpl. destruct Hs as [-> | ->]; by simpl.
    + by exists (Some m).
  - unfold set_baseline. destruct (_make_baseline _ _ _ _ _ _); [|done].
    unfold More.settled. simpl. repeat split; auto. by exists mode.
  - destruct (zscores_assigns self o b ns ce rng) as (b' & l' & ->).
    unfold More.settled. simpl. repeat split; auto. by exists mode.
Qed.

Lemma settled_calls language0 spacy_model emotion_model
    (built self : EmoScores) :
  init language0 spacy_model emotion_model = Ok built →
  calls built self → More.settled language0 built self.
Proof.
  intros Hinit%settled_init Hcalls.
  assert (∀ s0 s, calls s0 s → More.settled language0 built s0 →
                  More.settled language0 built s) as Hind.
  { induction 1 as [|s1 s2 s3 Hcall _ IH]; [done|].
    intros H1. apply IH. by apply (settled_call _ _ s1). }
  by apply (Hind _ _ Hcalls).
Qed.

(** X12: whenever the mode of an instance is "stemming" it holds the stemmer of
    its language, so the model handed on is a stemmer and never [None]. *)
Theorem stemming_mode_has_stemmer (language0 : string)
    (spacy_model : option SpacyModel) (emotion_model : string)
    (built self : EmoScores) :
  init language0 spacy_model emotion_model = Ok built →
  calls built self →
  _stem_or_lem self = "stemming" →
  _stemmer self = Some (_load_stemmer language0) ∧
  current_model self = UseStemmer (Some (_load_stemmer language0)).
Proof.
  intros Hinit Hcalls Hmode.
  destruct (settled_calls _ _ _ _ _ Hinit Hcalls)
    as (_ & _ & _ & _ & _ & Hm & _).
  split; [by apply Hm|]. unfold current_model. rewrite Hmode. simpl.
  by rewrite (Hm Hmode).
Qed.

(** X13: no call changes the language, the tagger, the emoji table or the
    antonym table of an instance, a stemmer once loaded stays, and the
    lexicon and the idiom table are always the ones loaded for the language
    and for the same mode, which is the mode of the instance. *)
Theorem resources_follow_mode (language0 : string)
    (spacy_model : option SpacyModel) (emotion_model : string)
    (built self : EmoScores) :
  init language0 spacy_model emotion_model = Ok built →
  calls built self →
  language self = language0 ∧
  _tagger self = _tagger built ∧
  _emojis_dict self = _load_emojis language0 ∧
  _antonyms self = _load_antonyms language0 ∧
  (_stemmer self = None ∨ _stemmer self = Some (_load_stemmer language0)) ∧
  ∃ mode : option string,
    _stem_or_lem self = default "lemmatization" mode ∧
    _load_dictionary language0 mode = Ok (_emotion_lexicon self) ∧
    _idiomatic_tokens self = _load_idiomatic_tokens language0 mode.
Proof.
  intros Hinit Hcalls.
  destruct (settled_calls _ _ _ _ _ Hinit Hcalls)
    as (Hl & Ht & He & Ha & Hs & _ & Hmode).
  repeat split; auto.
Qed.

(** X15: a call of [zscores] leaves every attribute but [_baseline] and
    [_lookup]; it replaces the stored baseline only when both the argument
    and the stored baseline are falsy, and it does so before it reads
    [emotionslist]: on an instance without that attribute, a call whose
    baseline was resolved raises the attribute error having replaced the
    baseline all the same, and has touched neither cache nor random state;
    a call whose builder raises changes nothing. *)
Theorem zscores_frame (self : EmoScores) (o : obj)
    (baseline : baseline_arg Row) (n_samples : nat) (convert_emojis : bool)
    (rng : Rng) :
  let after := (zscores self o baseline n_samples convert_emojis rng).1.2 in
  (∃ l, after = with_lookup (with_baseline self (_baseline after)) l) ∧
  _baseline after =
  (if truthy baseline || baseline_truthy (_baseline self)
   then _baseline self
   else match More.per_call_baseline self BNone with
        | Ok made => made
        | Raise _ => _baseline self
        end) ∧
  match emotionslist self with
  | Some _ => True
  | None =>
      zscores self o baseline n_samples convert_emojis rng =
      match resolve_baseline self baseline with
      | Ok _ =>
          (Raise (AttributeError "emotionslist"),
           with_baseline self (_baseline after), rng)
      | Raise e => (Raise e, self, rng)
      end
  end.
Proof.
  intros after.
  assert (match resolve_baseline self baseline with
          | Ok (self', _) =>
              _baseline self' =
              (if truthy baseline || baseline_truthy (_baseline self)
               then _baseline self
               else match More.per_call_baseline self BNone with
                    | Ok made => made
                    | Raise _ => _baseline self
                    end)
          | Raise _ =>
              _baseline self =
              (if truthy baseline || baseline_truthy (_baseline self)
               then _baseline self
               else match More.per_call_baseline self BNone with
                    | Ok made => made
                    | Raise _ => _baseline self
                    end)
          end) as Hb.
  { destruct (truthy baseline) eqn:Ht.
    - rewrite (resolve_baseline_truthy _ _ Ht). simpl.
      by destruct (More.per_call_baseline self baseline).
    - rewrite (resolve_baseline_falsy _ _ Ht), resolve_baseline_none. simpl.
      destruct (baseline_truthy (_baseline self)); [done|].
      by destruct (More.per_call_baseline self BNone). }
  subst after. unfold zscores.
  destruct (resolve_baseline self baseline) as [[self' used]|e] eqn:Hr.
  - pose proof (resolve_baseline_assigns _ _ _ _ Hr) as Hw.
    pose proof (resolve_baseline_attributes _ _ _ _ Hr) as (He & _).
    unfold get_emotionslist. rewrite He.
    destruct (emotionslist self) as [el|] eqn:Hel; simpl.
    + destruct (_zscores _ _ _ _ _ _ _ _ _ _ _ _) as [[z l] rng']. simpl.
      split; [|done]. exists l. by rewrite <- Hw.
    + split; [|split; [done|by rewrite <- Hw]].
      exists (_lookup self'). by rewrite <- Hw, with_lookup_same.
  - simpl. split; [|split; [done|by destruct (emotionslist self)]].
    exists (_lookup self). by rewrite with_baseline_same, with_lookup_same.
Qed.

End Invariants.

Lemma stemming_mode_has_stemmer_witness :
  @init Samples.toy "english" None "plutchik" = Ok Samples.toy_scorer ∧
  @calls Samples.toy Samples.toy_scorer
    (@set_stemming_lemmatization Samples.toy Samples.toy_scorer
       "stemming").2 ∧
  @current_model Samples.toy
    (@set_stemming_lemmatization Samples.toy Samples.toy_scorer
       "stemming").2 =
  UseStemmer (Some ()).
Proof.
  assert (H0 : @init Samples.toy "english" None "plutchik" =
               Ok Samples.toy_scorer) by reflexivity.
  assert (H : @calls Samples.toy Samples.toy_scorer
                (@set_stemming_lemmatization Samples.toy Samples.toy_scorer
                   "stemming").2).
  { eapply rtc_l; [|apply rtc_refl].
    exact (@call_set_stemming_lemmatization Samples.toy Samples.toy_scorer
             "stemming"). }
  split; [exact H0|]. split; [exact H|].
  exact (proj2 (@stemming_mode_has_stemmer Samples.toy "english" None
                  "plutchik" Samples.toy_scorer _ H0 H eq_refl)).
Defined.

Lemma resources_follow_mode_witness :
  @init Samples.toy "english" None "plutchik" = Ok Samples.toy_scorer ∧
  @calls Samples.toy Samples.toy_scorer Samples.toy_scorer_used ∧
  @language Samples.toy Samples.toy_scorer_used = "english".
Proof.
  assert (H0 : @init Samples.toy "english" None "plutchik" =
               Ok Samples.toy_scorer) by reflexivity.
  assert (H : @calls Samples.toy Samples.toy_scorer
                Samples.toy_scorer_used).
  { eapply rtc_l; [|apply rtc_refl].
    exact (@call_zscores Samples.toy Samples.toy_scorer (Text "abc") BNone
             300 true 0). }
  split; [exact H0|]. split; [exact H|].
  exact (proj1 (@resources_follow_mode Samples.toy "english" None
                  "plutchik" Samples.toy_scorer _ H0 H)).
Defined.

End ScorerFacts.
